(** * ChatServerTCP: the session registry and command engine of
    [backend/server.js], embedded in Rocq.

    Strings are JavaScript strings: finite sequences of UTF-16 code units,
    here [list N].  The registry [users] is a JavaScript [Map], whose
    iteration order is insertion order: an association list.  Sockets are
    objects compared by identity that carry a mutable [destroyed] flag:
    socket identities are numbers and the flags live in the world state.
    Everything the server does to the outside (writes, destroys) and to the
    registry (set, delete, clear) is appended to a trace, in program
    order. *)

From Stdlib Require Import Ascii String.
From Stdlib Require Import List NArith ZArith Bool Lia.
Import ListNotations.

Local Open Scope list_scope.

(** ** JavaScript strings *)

Definition jsstring := list N.

(** An ASCII literal of the source, as code units. *)
Definition lit (s : string) : jsstring :=
  map N_of_ascii (list_ascii_of_string s).
Arguments lit s%_string.

Definition SPACE : N := 32%N.
Definition NEWLINE : N := 10%N.

Fixpoint streq (a b : jsstring) : bool :=
  match a, b with
  | [], [] => true
  | x :: a', y :: b' => N.eqb x y && streq a' b'
  | _, _ => false
  end.

(** White space and line terminators of ECMAScript, the code units that
    [String.prototype.trim] strips. *)
Definition is_ws (c : N) : bool :=
  ((9 <=? c) && (c <=? 13) || (c =? 32) || (c =? 160) || (c =? 5760)
   || (8192 <=? c) && (c <=? 8202) || (c =? 8232) || (c =? 8233)
   || (c =? 8239) || (c =? 8287) || (c =? 12288) || (c =? 65279))%N.

Fixpoint trimStart (s : jsstring) : jsstring :=
  match s with
  | [] => []
  | c :: r => if is_ws c then trimStart r else s
  end.

Fixpoint trimEnd (s : jsstring) : jsstring :=
  match s with
  | [] => []
  | c :: r =>
      match trimEnd r with
      | [] => if is_ws c then [] else [c]
      | r' => c :: r'
      end
  end.

(** [s.trim()] *)
Definition trim (s : jsstring) : jsstring := trimEnd (trimStart s).

(** [s.split(sep)] for a one-unit separator: never the empty array. *)
Fixpoint split (sep : N) (s : jsstring) : list jsstring :=
  match s with
  | [] => [[]]
  | c :: r =>
      if N.eqb c sep then [] :: split sep r
      else match split sep r with
           | [] => [[c]]
           | t :: ts => (c :: t) :: ts
           end
  end.

(** [a.join(sep)] *)
Fixpoint join (sep : N) (l : list jsstring) : jsstring :=
  match l with
  | [] => []
  | [x] => x
  | x :: r => x ++ sep :: join sep r
  end.

(** [a.slice(k)] *)
Definition slice {A} (k : nat) (l : list A) : list A := skipn k l.

(** [s.toUpperCase()], one code unit at a time.  The source only compares
    the result with the words LOGIN, MSG, WHO, DM and PING.  The code points
    whose upper case is a single letter A-Z are a-z, U+0131 (dotless i) and
    U+017F (long s); they are mapped as JavaScript maps them.  Every other
    code point upper-cases to something that is no part of the five words
    (it holds a unit outside A-Z, or it is one of SS, FF, FI, FL, FFI, FFL,
    ST, from a ligature), so leaving those units as they are decides each
    comparison the way the source does. *)
Definition upper_unit (c : N) : N :=
  (if (97 <=? c) && (c <=? 122) then c - 32
   else if c =? 305 then 73
   else if c =? 383 then 83
   else c)%N.

Definition toUpperCase (s : jsstring) : jsstring := map upper_unit s.

(** JavaScript truthiness of a string: the empty string is falsy. *)
Definition nonempty (s : jsstring) : bool :=
  match s with [] => false | _ => true end.

(** Truthiness of a value that is a string or [null]. *)
Definition truthy (o : option jsstring) : bool :=
  match o with Some s => nonempty s | None => false end.

(** ** The world: registry, socket flags, trace *)

Definition Socket := nat.

(** The object stored under a username. *)
Record userData := mkUser {
  socket : Socket;
  lastActivity : Z;
  disconnecting : bool
}.

Inductive event :=
| EvWrite (s : Socket) (data : jsstring)   (* socket.write(data) *)
| EvDestroy (s : Socket)                   (* socket.destroy() *)
| EvSet (name : jsstring) (s : Socket)     (* users.set(name, {socket, ..}) *)
| EvDelete (name : jsstring)               (* users.delete(name) *)
| EvClear.                                 (* users.clear() *)

Record World := mkWorld {
  users : list (jsstring * userData);
  destroyed : list Socket;
  trace : list event
}.

Definition IDLE_TIMEOUT : Z := 60000.

(** *** Map operations, in insertion order *)

Fixpoint Map_get (k : jsstring) (m : list (jsstring * userData)) : option userData :=
  match m with
  | [] => None
  | (k', d) :: r => if streq k' k then Some d else Map_get k r
  end.

Definition Map_has (k : jsstring) (m : list (jsstring * userData)) : bool :=
  match Map_get k m with Some _ => true | None => false end.

(** [set] keeps the position of a key that is present and appends a new one. *)
Fixpoint Map_set (k : jsstring) (v : userData) (m : list (jsstring * userData))
  : list (jsstring * userData) :=
  match m with
  | [] => [(k, v)]
  | (k', d) :: r => if streq k' k then (k', v) :: r else (k', d) :: Map_set k v r
  end.

Definition Map_delete (k : jsstring) (m : list (jsstring * userData))
  : list (jsstring * userData) :=
  filter (fun e => negb (streq (fst e) k)) m.

Definition keys (m : list (jsstring * userData)) : list jsstring := map fst m.
Definition sockets (m : list (jsstring * userData)) : list Socket :=
  map (fun e => socket (snd e)) m.

Definition is_destroyed (s : Socket) (w : World) : bool :=
  existsb (Nat.eqb s) (destroyed w).

Definition emit (e : event) (w : World) : World :=
  mkWorld (users w) (destroyed w) (trace w ++ [e]).

Definition set_users (m : list (jsstring * userData)) (w : World) : World :=
  mkWorld m (destroyed w) (trace w).

(** ** The functions of server.js *)

(** [sendToSocket(socket, message)]: one write of [message + '\n'] unless
    the socket is destroyed. *)
Definition sendToSocket (sock : Socket) (message : jsstring) (w : World) : World :=
  if negb (is_destroyed sock w) then emit (EvWrite sock (message ++ [NEWLINE])) w
  else w.

Definition differs (s : Socket) (exclude : option Socket) : bool :=
  match exclude with Some x => negb (Nat.eqb s x) | None => true end.

(** [broadcast(message, excludeSocket = null)] *)
Definition broadcast (message : jsstring) (excludeSocket : option Socket) (w : World) : World :=
  fold_left
    (fun w' e =>
       let sock := socket (snd e) in
       if differs sock excludeSocket && negb (is_destroyed sock w')
       then sendToSocket sock message w' else w')
    (users w) w.

(** [broadcastToAll(message)] *)
Definition broadcastToAll (message : jsstring) (w : World) : World :=
  fold_left
    (fun w' e =>
       let sock := socket (snd e) in
       if negb (is_destroyed sock w') then sendToSocket sock message w' else w')
    (users w) w.

(** [getUsernameBySocket(socket)]: the first entry that holds the socket. *)
Fixpoint find_socket (sock : Socket) (m : list (jsstring * userData)) : option jsstring :=
  match m with
  | [] => None
  | (username, data) :: r =>
      if Nat.eqb (socket data) sock then Some username else find_socket sock r
  end.

Definition getUsernameBySocket (sock : Socket) (w : World) : option jsstring :=
  find_socket sock (users w).

Definition touch (now : Z) (d : userData) : userData :=
  mkUser (socket d) now (disconnecting d).

Definition mark (d : userData) : userData :=
  mkUser (socket d) (lastActivity d) true.

(** [updateActivity(socket)], with [now] the value of [Date.now()]. *)
Definition updateActivity (now : Z) (sock : Socket) (w : World) : World :=
  match getUsernameBySocket sock w with
  | Some username =>
      if nonempty username && Map_has username (users w) then
        match Map_get username (users w) with
        | Some d => set_users (Map_set username (touch now d) (users w)) w
        | None => w
        end
      else w
  | None => w
  end.

(** [socket.destroy()] sets the flag. *)
Definition destroy (sock : Socket) (w : World) : World :=
  mkWorld (users w)
          (if is_destroyed sock w then destroyed w else sock :: destroyed w)
          (trace w ++ [EvDestroy sock]).

(** The last statement of [handleDisconnect]. *)
Definition ensureDestroyed (sock : Socket) (w : World) : World :=
  if negb (is_destroyed sock w) then destroy sock w else w.

Definition INFO_disconnected (username : jsstring) : jsstring :=
  lit "INFO " ++ username ++ lit " disconnected".

(** [handleDisconnect(socket, reason)]; [reason] is only logged. *)
Definition handleDisconnect (sock : Socket) (w : World) : World :=
  match getUsernameBySocket sock w with
  | Some username =>
      if nonempty username then
        let userData := Map_get username (users w) in
        if match userData with Some d => disconnecting d | None => false end
        then w
        else
          let w1 := match userData with
                    | Some d => set_users (Map_set username (mark d) (users w)) w
                    | None => w
                    end in
          let w2 := emit (EvDelete username)
                         (set_users (Map_delete username (users w1)) w1) in
          let w3 := broadcast (INFO_disconnected username) None w2 in
          ensureDestroyed sock w3
      else ensureDestroyed sock w
  | None => ensureDestroyed sock w
  end.

Definition MSG_line (username text : jsstring) : jsstring :=
  lit "MSG " ++ username ++ lit " " ++ text.

Definition USER_line (user : jsstring) : jsstring := lit "USER " ++ user.

Definition DM_line (username text : jsstring) : jsstring :=
  lit "DM " ++ username ++ lit " " ++ text.

Definition DM_SENT_line (targetUsername : jsstring) : jsstring :=
  lit "DM-SENT " ++ targetUsername.

(** [handleCommand(socket, data)], with [now] the value of [Date.now()].
    Each [return] of the source is a leaf of the expression. *)
Definition handleCommand (now : Z) (sock : Socket) (data : jsstring) (w0 : World) : World :=
  let message := trim data in
  if negb (nonempty message) then w0 else
  let w := updateActivity now sock w0 in
  let username := getUsernameBySocket sock w in
  let parts := split SPACE message in
  let command := toUpperCase (nth 0 parts []) in
  if streq command (lit "LOGIN") then
    if truthy username then sendToSocket sock (lit "ERR already-logged-in") w
    else
      let newUsername := trim (join SPACE (slice 1 parts)) in
      if negb (nonempty newUsername) then
        sendToSocket sock (lit "ERR invalid-username") w
      else if Map_has newUsername (users w) then
        sendToSocket sock (lit "ERR username-taken") w
      else
        let w1 := emit (EvSet newUsername sock)
                       (set_users (Map_set newUsername (mkUser sock now false) (users w)) w) in
        sendToSocket sock (lit "OK") w1
  else
  match username with
  | None => sendToSocket sock (lit "ERR not-logged-in") w
  | Some username =>
  if negb (nonempty username) then sendToSocket sock (lit "ERR not-logged-in") w
  else if streq command (lit "MSG") then
    let text := trim (join SPACE (slice 1 parts)) in
    if negb (nonempty text) then sendToSocket sock (lit "ERR empty-message") w
    else broadcastToAll (MSG_line username text) w
  else if streq command (lit "WHO") then
    if Nat.eqb (length (users w)) 0 then sendToSocket sock (lit "INFO no-users-online") w
    else fold_left (fun w' e => sendToSocket sock (USER_line (fst e)) w') (users w) w
  else if streq command (lit "DM") then
    if Nat.ltb (length parts) 3 then sendToSocket sock (lit "ERR invalid-dm-format") w
    else
      let targetUsername := nth 1 parts [] in
      let text := trim (join SPACE (slice 2 parts)) in
      if negb (nonempty text) then sendToSocket sock (lit "ERR empty-message") w
      else if negb (Map_has targetUsername (users w)) then
        sendToSocket sock (lit "ERR user-not-found") w
      else
        match Map_get targetUsername (users w) with
        | None => sendToSocket sock (lit "ERR user-not-found") w
        | Some targetData =>
            if is_destroyed (socket targetData) w then
              sendToSocket sock (lit "ERR user-not-found") w
            else
              sendToSocket sock (DM_SENT_line targetUsername)
                (sendToSocket (socket targetData) (DM_line username text) w)
        end
  else if streq command (lit "PING") then sendToSocket sock (lit "PONG") w
  else sendToSocket sock (lit "ERR unknown-command") w
  end.

(** The test of the idle sweep on one entry. *)
Definition idle (now : Z) (data : userData) : bool :=
  (now - lastActivity data >? IDLE_TIMEOUT)%Z && negb (disconnecting data).

(** The array [usersToDisconnect], filled by the first loop. *)
Definition usersToDisconnect (now : Z) (w : World) : list (jsstring * Socket) :=
  map (fun e => (fst e, socket (snd e)))
      (filter (fun e => idle now (snd e)) (users w)).

Definition INFO_inactivity : jsstring := lit "INFO disconnected-due-to-inactivity".

(** The body of the second loop. *)
Definition evict (w : World) (u : jsstring * Socket) : World :=
  handleDisconnect (snd u) (sendToSocket (snd u) INFO_inactivity w).

(** [checkIdleUsers()], with [now] the value of [Date.now()]. *)
Definition checkIdleUsers (now : Z) (w : World) : World :=
  fold_left evict (usersToDisconnect now w) w.

(** The ['data'] listener of a socket: one [handleCommand] per line of the
    chunk that is not blank. *)
Definition onData (now : Z) (sock : Socket) (data : jsstring) (w : World) : World :=
  fold_left
    (fun w' cmd => if nonempty (trim cmd) then handleCommand now sock cmd w' else w')
    (split NEWLINE data) w.

(** The SIGINT handler, up to [users.clear()]. *)
Definition shutdown (w : World) : World :=
  let w1 := broadcast (lit "INFO server-shutting-down") None w in
  let w2 := fold_left (fun w' e => destroy (socket (snd e)) w') (users w1) w1 in
  emit EvClear (set_users [] w2).

(** The runtime destroys a socket (reset, write error) before any listener
    of the server runs: only the flag changes. *)
Definition socketFails (sock : Socket) (w : World) : World :=
  mkWorld (users w)
          (if is_destroyed sock w then destroyed w else sock :: destroyed w)
          (trace w).

Definition initial : World := mkWorld [] [] [].

(** One event of the event loop.  A line arrives only on a socket that is
    not destroyed, and the ['data'] listener passes on only lines that are
    not blank. *)
Inductive step : World -> World -> Prop :=
| step_command now sock data w :
    is_destroyed sock w = false -> trim data <> [] ->
    step w (handleCommand now sock data w)
| step_disconnect sock w : step w (handleDisconnect sock w)
| step_idle now w : step w (checkIdleUsers now w)
| step_fail sock w : step w (socketFails sock w)
| step_shutdown w : step w (shutdown w).

Inductive reachable : World -> Prop :=
| reach_initial : reachable initial
| reach_step w w' : reachable w -> step w w' -> reachable w'.

(** Any number of events. *)
Inductive steps : World -> World -> Prop :=
| steps_refl w : steps w w
| steps_step w w' w'' : steps w w' -> step w' w'' -> steps w w''.

(** What a call appended to the trace. *)
Definition emitted (before after : World) : list event :=
  skipn (length (trace before)) (trace after).

(** The write that delivers one line. *)
Definition line (sock : Socket) (message : jsstring) : event :=
  EvWrite sock (message ++ [NEWLINE]).

(** ** The vocabulary of the statements *)

(** [!socket.destroyed] *)
Definition live (w : World) (s : Socket) : bool := negb (is_destroyed s w).

(** The sockets a broadcast writes to, in registry order. *)
Definition recipients (excludeSocket : option Socket) (w : World) : list Socket :=
  map (fun e => socket (snd e))
      (filter (fun e => differs (socket (snd e)) excludeSocket
                        && live w (socket (snd e))) (users w)).

(** What holds of every entry of the registry. *)
Definition good (e : jsstring * userData) : Prop :=
  nonempty (fst e) = true /\ trim (fst e) = fst e /\ disconnecting (snd e) = false.

(** Names are distinct, sockets are distinct, every name is a trimmed,
    non-empty string and no stored session is marked as disconnecting. *)
Definition Inv (w : World) : Prop :=
  NoDup (keys (users w)) /\ NoDup (sockets (users w)) /\ Forall good (users w).

(** The sockets of the sessions that remain when [n] is gone and that are
    not destroyed: the recipients of the notification. *)
Definition remaining (n : jsstring) (w : World) : list Socket :=
  recipients None (set_users (Map_delete n (users w)) w).

(** What the teardown of the session [n] on [sock] appends to the trace. *)
Definition teardown_events (n : jsstring) (sock : Socket) (w : World) : list event :=
  EvDelete n
  :: map (fun s => line s (INFO_disconnected n)) (remaining n w)
  ++ (if live w sock then [EvDestroy sock] else []).

(** The names that [handleCommand] gives to the pieces of a line. *)
Definition parts_of (data : jsstring) : list jsstring := split SPACE (trim data).

Definition command_of (data : jsstring) : jsstring :=
  toUpperCase (nth 0 (parts_of data) []).

(** [parts.slice(k).join(' ').trim()] *)
Definition text_from (k : nat) (data : jsstring) : jsstring :=
  trim (join SPACE (slice k (parts_of data))).

Ltac split_ifs :=
  repeat match goal with
    | |- context [if ?c then _ else _] => destruct c
    | |- context [match ?c with Some _ => _ | None => _ end] => destruct c
    end.

(** The session of [u] is in the registry. *)
Definition held (w : World) (u : jsstring * Socket) : Prop :=
  exists d, In (fst u, d) (users w) /\ socket d = snd u.

(** What the eviction of the session [n] on [s] appends to the trace. *)
Definition evict_events (n : jsstring) (s : Socket) (w : World) : list event :=
  (if live w s then [line s INFO_inactivity] else []) ++ teardown_events n s w.

(** The connection is destroyed and has no session. *)
Definition closed (sock : Socket) (w : World) : Prop :=
  is_destroyed sock w = true /\ getUsernameBySocket sock w = None.

(** A reply is written unless the socket is destroyed. *)
Definition reply (w : World) (sock : Socket) (message : jsstring) : list event :=
  if live w sock then [line sock message] else [].

(** No write to a socket follows a [destroy()] call of the server on that
    socket. *)
Definition no_write_after_destroy (tr : list event) : Prop :=
  forall pre post s message,
    tr = pre ++ EvDestroy s :: post -> ~ In (EvWrite s message) post.

(** The trace is safe and the flags know every [destroy()] call. *)
Definition safe (w : World) : Prop :=
  no_write_after_destroy (trace w) /\
  forall s, In (EvDestroy s) (trace w) -> is_destroyed s w = true.

(** The events a command may append in the world [w]: writes to sockets that
    are not destroyed, and [users.set]. *)
Definition command_event (w : World) (e : event) : Prop :=
  match e with
  | EvWrite s _ => is_destroyed s w = false
  | EvSet _ _ => True
  | _ => False
  end.

(** [w'] comes from [w] by such events, with the same flags. *)
Definition extends (w w' : World) : Prop :=
  destroyed w' = destroyed w /\
  exists ev, trace w' = trace w ++ ev /\ Forall (command_event w) ev.

(** ** Example worlds *)

Definition alice : jsstring := lit "alice".
Definition bob : jsstring := lit "bob".

(** alice has logged in on socket 1. *)
Definition alice_online : World := handleCommand 0 1 (lit "LOGIN alice") initial.

(** Then bob has logged in on socket 2. *)
Definition both_online : World := handleCommand 5 2 (lit "LOGIN bob") alice_online.

(** Then the runtime has destroyed bob's socket; no listener has run yet. *)
Definition bob_lost : World := socketFails 2 both_online.

(** The sessions [a] (socket 1), [a b] (socket 2) and [c] (socket 3). *)
Definition spaced_online : World :=
  handleCommand 2 3 (lit "LOGIN c")
    (handleCommand 1 2 (lit "LOGIN a b")
       (handleCommand 0 1 (lit "LOGIN a") initial)).

Ltac by_command :=
  eapply reach_step; [|apply step_command; [reflexivity|vm_compute; discriminate]].

(** ** The functions on small inputs *)

Example split_keeps_empty_tokens :
  split SPACE (lit "DM  x") = [lit "DM"; []; lit "x"].
Proof. reflexivity. Qed.

Example split_of_empty : split SPACE [] = [[]].
Proof. reflexivity. Qed.

Example trim_strips_both_ends :
  trim ([9; 32] ++ lit "dm bob  hi" ++ [13; 10])%N = lit "dm bob  hi".
Proof. reflexivity. Qed.

Example toUpperCase_dotless_i :
  toUpperCase [108; 111; 103; 305; 110]%N = lit "LOGIN".
Proof. reflexivity. Qed.

Example login_then_msg :
  emitted both_online (handleCommand 9 2 (lit "msg  hi there ") both_online)
  = [line 1 (lit "MSG bob hi there"); line 2 (lit "MSG bob hi there")].
Proof. reflexivity. Qed.

Example dm_with_empty_target :
  emitted both_online (handleCommand 9 2 (lit "DM  x") both_online)
  = [line 2 (lit "ERR user-not-found")].
Proof. reflexivity. Qed.

Example sweep_with_a_destroyed_socket :
  emitted bob_lost (checkIdleUsers 70000 bob_lost)
  = [line 1 INFO_inactivity; EvDelete alice; EvDestroy 1; EvDelete bob].
Proof. reflexivity. Qed.

(** ** Strings: comparison, trimming, splitting *)

Lemma streq_eq (a b : jsstring) : streq a b = true <-> a = b.
Proof.
  revert b; induction a as [|x a IH]; intros [|y b]; simpl; split;
    try congruence; try discriminate; auto.
  - intros H. apply andb_true_iff in H as [H1 H2].
    apply N.eqb_eq in H1. apply IH in H2. congruence.
  - intros H. injection H as -> ->. rewrite N.eqb_refl. simpl. now apply IH.
Qed.

Lemma streq_refl (a : jsstring) : streq a a = true.
Proof. now apply streq_eq. Qed.

Lemma streq_neq (a b : jsstring) : streq a b = false <-> a <> b.
Proof.
  split.
  - intros H E. apply streq_eq in E. congruence.
  - intros H. destruct (streq a b) eqn:E; auto. apply streq_eq in E. contradiction.
Qed.

Lemma nonempty_true (s : jsstring) : nonempty s = true <-> s <> [].
Proof. destruct s; simpl; split; congruence. Qed.

Lemma nonempty_false (s : jsstring) : nonempty s = false <-> s = [].
Proof. destruct s; simpl; split; congruence. Qed.

Lemma trimEnd_nil (s : jsstring) : trimEnd s = [] <-> forallb is_ws s = true.
Proof.
  induction s as [|c r IH]; simpl; [tauto|].
  destruct (trimEnd r) eqn:E.
  - destruct (is_ws c); simpl; [tauto|]. split; discriminate.
  - split; [discriminate|]. intros H. apply andb_true_iff in H as [_ H].
    apply IH in H. discriminate.
Qed.

Lemma trimStart_blank (s : jsstring) :
  forallb is_ws (trimStart s) = forallb is_ws s.
Proof.
  induction s as [|c r IH]; simpl; auto.
  destruct (is_ws c) eqn:E; simpl; auto. now rewrite E.
Qed.

(** [trim] gives the empty string exactly on blank strings. *)
Lemma trim_nil (s : jsstring) : trim s = [] <-> forallb is_ws s = true.
Proof. unfold trim. rewrite trimEnd_nil, trimStart_blank. tauto. Qed.

Lemma last_not_ws_not_blank (s : jsstring) :
  is_ws (last s SPACE) = false -> forallb is_ws s = false.
Proof.
  induction s as [|c r IH]; [discriminate|].
  intros H. simpl. destruct r as [|c' r'].
  - simpl in H. now rewrite H.
  - change (last (c :: c' :: r') SPACE) with (last (c' :: r') SPACE) in H.
    rewrite (IH H). apply andb_false_r.
Qed.

Lemma trimEnd_last (s : jsstring) :
  trimEnd s <> [] -> is_ws (last (trimEnd s) SPACE) = false.
Proof.
  induction s as [|c r IH]; simpl; [congruence|].
  destruct (trimEnd r) as [|c' r'] eqn:E.
  - destruct (is_ws c) eqn:W; [congruence|]. intros _. exact W.
  - intros _. change (last (c :: c' :: r') SPACE) with (last (c' :: r') SPACE).
    apply IH. discriminate.
Qed.

(** A trimmed string that is not empty ends in a unit that is no white
    space. *)
Lemma trim_last (s : jsstring) :
  trim s <> [] -> is_ws (last (trim s) SPACE) = false.
Proof. apply trimEnd_last. Qed.

Lemma split_not_nil (sep : N) (s : jsstring) : split sep s <> [].
Proof.
  destruct s as [|c r]; simpl; [discriminate|].
  destruct (N.eqb c sep); [discriminate|]. destruct (split sep r); discriminate.
Qed.

(** No token of a split holds the separator. *)
Lemma split_no_sep (sep : N) (s : jsstring) :
  Forall (fun t => ~ In sep t) (split sep s).
Proof.
  induction s as [|c r IH]; simpl.
  - constructor; auto.
  - destruct (N.eqb c sep) eqn:E.
    + constructor; auto.
    + destruct (split sep r) as [|t ts]; [constructor; auto|].
      * intros [H|[]]. subst. rewrite N.eqb_refl in E. discriminate.
      * inversion IH; subst. constructor; auto.
        intros [H|H]; [subst; rewrite N.eqb_refl in E; discriminate|auto].
Qed.

Lemma join_cons (sep : N) (x : jsstring) (l : list jsstring) :
  l <> [] -> join sep (x :: l) = x ++ sep :: join sep l.
Proof. destruct l; [congruence|reflexivity]. Qed.

Lemma join_split (sep : N) (s : jsstring) : join sep (split sep s) = s.
Proof.
  induction s as [|c r IH]; simpl; auto.
  pose proof (split_not_nil sep r) as NN.
  destruct (N.eqb c sep) eqn:E.
  - apply N.eqb_eq in E. subst c.
    rewrite join_cons by assumption. simpl. now rewrite IH.
  - destruct (split sep r) as [|t ts]; [congruence|].
    destruct ts as [|t' ts']; simpl in *; now rewrite <- IH.
Qed.

Lemma last_app_cons {A} (a : list A) (x : A) (b : list A) (d : A) :
  last (a ++ x :: b) d = last (x :: b) d.
Proof.
  induction a as [|y a IH]; auto.
  simpl app. destruct (a ++ x :: b) eqn:E; [destruct a; discriminate|].
  rewrite <- IH. reflexivity.
Qed.

Lemma last_cons_default {A} (x : A) (l : list A) :
  last (x :: l) x = last l x.
Proof. destruct l; reflexivity. Qed.

(** The last unit of a joined array is the last unit of its last element. *)
Lemma last_join (sep : N) (l : list jsstring) :
  l <> [] -> last (join sep l) sep = last (last l []) sep.
Proof.
  induction l as [|x r IH]; [congruence|]. intros _.
  destruct r as [|y r']; [reflexivity|].
  change (join sep (x :: y :: r')) with (x ++ sep :: join sep (y :: r')).
  rewrite last_app_cons, last_cons_default.
  rewrite IH by discriminate. reflexivity.
Qed.

Lemma last_skipn {A} (k : nat) (l : list A) (d : A) :
  k < length l -> last (skipn k l) d = last l d.
Proof.
  revert l; induction k as [|k IH]; intros l H; [reflexivity|].
  destruct l as [|x l]; [simpl in H; lia|]. simpl in H.
  simpl skipn. rewrite IH by lia.
  destruct l; [simpl in H; lia|reflexivity].
Qed.

Lemma skipn_not_nil {A} (k : nat) (l : list A) :
  k < length l -> skipn k l <> [].
Proof.
  intros H E. apply (f_equal (@length A)) in E. rewrite length_skipn in E.
  simpl in E. lia.
Qed.

(** The text of a DM: when the trimmed line has three tokens or more, what
    follows the second token is not blank. *)
Lemma dm_text_nonempty (data : jsstring) :
  let parts := split SPACE (trim data) in
  3 <= length parts ->
  nonempty (trim (join SPACE (slice 2 parts))) = true.
Proof.
  intros parts H. apply nonempty_true. intros E. apply trim_nil in E.
  assert (M : trim data <> []).
  { intros M. subst parts. rewrite M in H. simpl in H. lia. }
  pose proof (trim_last data M) as L.
  rewrite <- (join_split SPACE (trim data)) in L. fold parts in L.
  rewrite last_join in L by apply split_not_nil.
  unfold slice in E.
  assert (L' : is_ws (last (join SPACE (skipn 2 parts)) SPACE) = false).
  { rewrite last_join by (apply skipn_not_nil; lia).
    rewrite last_skipn by lia. exact L. }
  apply last_not_ws_not_blank in L'. congruence.
Qed.

Lemma trimEnd_idem (s : jsstring) : trimEnd (trimEnd s) = trimEnd s.
Proof.
  induction s as [|c r IH]; simpl; auto.
  destruct (trimEnd r) as [|c' r'] eqn:E.
  - destruct (is_ws c) eqn:W; simpl; auto. now rewrite W.
  - change (trimEnd (c :: c' :: r'))
      with (match trimEnd (c' :: r') with
            | [] => if is_ws c then [] else [c]
            | x => c :: x
            end).
    rewrite IH. reflexivity.
Qed.

Lemma trimStart_fix (s : jsstring) :
  match s with [] => True | c :: _ => is_ws c = false end -> trimStart s = s.
Proof. destruct s as [|c r]; simpl; auto. now intros ->. Qed.

Lemma trimStart_head (s : jsstring) :
  match trimStart s with [] => True | c :: _ => is_ws c = false end.
Proof.
  induction s as [|c r IH]; simpl; auto.
  destruct (is_ws c) eqn:W; auto.
Qed.

Lemma trimEnd_head (s : jsstring) :
  match s with [] => True | c :: _ => is_ws c = false end ->
  match trimEnd s with [] => True | c :: _ => is_ws c = false end.
Proof.
  destruct s as [|c r]; simpl; auto. intros W.
  destruct (trimEnd r); [rewrite W|]; exact W.
Qed.

(** [trim] is idempotent. *)
Lemma trim_idem (s : jsstring) : trim (trim s) = trim s.
Proof.
  unfold trim.
  rewrite (trimStart_fix (trimEnd (trimStart s))).
  - apply trimEnd_idem.
  - apply trimEnd_head, trimStart_head.
Qed.

Lemma trimEnd_app (a s : jsstring) :
  trimEnd s <> [] -> trimEnd (a ++ s) = a ++ trimEnd s.
Proof.
  intros H. induction a as [|c a IH]; simpl; auto.
  rewrite IH. destruct (a ++ trimEnd s) eqn:E; auto.
  destruct a; simpl in E; congruence.
Qed.

Lemma trim_fix_trimEnd (s : jsstring) : trim s = s -> trimEnd s = s.
Proof. intros H. rewrite <- H. unfold trim. apply trimEnd_idem. Qed.

(** ** The registry as a map *)

Lemma Map_get_In (k : jsstring) (m : list (jsstring * userData)) (d : userData) :
  Map_get k m = Some d -> In (k, d) m.
Proof.
  induction m as [|[k' d'] r IH]; simpl; [discriminate|].
  destruct (streq k' k) eqn:E.
  - intros H. injection H as ->. apply streq_eq in E. subst. now left.
  - intros H. right. auto.
Qed.

Lemma Map_get_None (k : jsstring) (m : list (jsstring * userData)) :
  Map_get k m = None <-> ~ In k (keys m).
Proof.
  induction m as [|[k' d'] r IH]; simpl; [tauto|].
  destruct (streq k' k) eqn:E.
  - apply streq_eq in E. split; [discriminate|]. intros H. exfalso. apply H. now left.
  - apply streq_neq in E. rewrite IH. tauto.
Qed.

Lemma Map_has_keys (k : jsstring) (m : list (jsstring * userData)) :
  Map_has k m = true <-> In k (keys m).
Proof.
  unfold Map_has. destruct (Map_get k m) eqn:E.
  - split; auto. intros _. apply Map_get_In in E.
    apply (in_map fst) in E. exact E.
  - split; [discriminate|]. intros H. apply Map_get_None in E. contradiction.
Qed.

Lemma Map_has_false (k : jsstring) (m : list (jsstring * userData)) :
  Map_has k m = false <-> ~ In k (keys m).
Proof.
  rewrite <- Map_has_keys. destruct (Map_has k m); split; congruence.
Qed.

Lemma In_Map_get (k : jsstring) (d : userData) (m : list (jsstring * userData)) :
  NoDup (keys m) -> In (k, d) m -> Map_get k m = Some d.
Proof.
  induction m as [|[k' d'] r IH]; simpl; [tauto|].
  intros ND [H|H].
  - injection H as -> ->. now rewrite streq_refl.
  - inversion ND; subst. destruct (streq k' k) eqn:E.
    + apply streq_eq in E. subst. exfalso. apply H2.
      apply (in_map fst) in H. exact H.
    + auto.
Qed.

Lemma Map_set_new (k : jsstring) (v : userData) (m : list (jsstring * userData)) :
  ~ In k (keys m) -> Map_set k v m = m ++ [(k, v)].
Proof.
  induction m as [|[k' d'] r IH]; simpl; auto.
  intros H. destruct (streq k' k) eqn:E.
  - apply streq_eq in E. subst. exfalso. apply H. now left.
  - rewrite IH; auto.
Qed.

Lemma Map_set_keys (k : jsstring) (v d : userData) (m : list (jsstring * userData)) :
  Map_get k m = Some d -> keys (Map_set k v m) = keys m.
Proof.
  induction m as [|[k' d'] r IH]; simpl; [discriminate|].
  destruct (streq k' k) eqn:E; simpl; auto.
  intros H. now rewrite IH.
Qed.

Lemma Map_set_sockets (k : jsstring) (v d : userData) (m : list (jsstring * userData)) :
  Map_get k m = Some d -> socket v = socket d ->
  sockets (Map_set k v m) = sockets m.
Proof.
  induction m as [|[k' d'] r IH]; simpl; [discriminate|].
  destruct (streq k' k) eqn:E; simpl.
  - intros H S. injection H as ->. now rewrite S.
  - intros H S. now rewrite IH.
Qed.

Lemma Map_set_find_socket (k : jsstring) (v d : userData)
      (m : list (jsstring * userData)) (sock : Socket) :
  Map_get k m = Some d -> socket v = socket d ->
  find_socket sock (Map_set k v m) = find_socket sock m.
Proof.
  induction m as [|[k' d'] r IH]; simpl; [discriminate|].
  destruct (streq k' k) eqn:E; simpl.
  - intros H S. injection H as ->. now rewrite S.
  - intros H S. now rewrite IH.
Qed.

Lemma Map_delete_set (k : jsstring) (v : userData) (m : list (jsstring * userData)) :
  Map_delete k (Map_set k v m) = Map_delete k m.
Proof.
  unfold Map_delete. induction m as [|[k' d'] r IH]; simpl.
  - now rewrite streq_refl.
  - destruct (streq k' k) eqn:E; simpl; rewrite E; simpl; auto.
    now rewrite IH.
Qed.

Lemma Map_delete_keys (k : jsstring) (m : list (jsstring * userData)) :
  keys (Map_delete k m) = filter (fun x => negb (streq x k)) (keys m).
Proof.
  unfold Map_delete, keys. induction m as [|[k' d'] r IH]; simpl; auto.
  destruct (streq k' k); simpl; now rewrite IH.
Qed.

Lemma Map_delete_not_in (k : jsstring) (m : list (jsstring * userData)) :
  ~ In k (keys (Map_delete k m)).
Proof.
  rewrite Map_delete_keys. intros H. apply filter_In in H as [_ H].
  now rewrite streq_refl in H.
Qed.

Lemma NoDup_map_filter {K E} (key : E -> K) (keep : E -> bool) (m : list E)
      (distinct : NoDup (map key m)) :
  NoDup (map key (filter keep m)).
Proof.
  induction m as [|e m IH]; simpl in *; [exact distinct|].
  inversion distinct as [|? ? fresh rest]; subst.
  destruct (keep e); simpl; [|now apply IH].
  constructor; [|now apply IH].
  intros I. apply fresh. apply in_map_iff in I as [x [E1 I]].
  apply filter_In in I as [I _]. rewrite <- E1. now apply in_map.
Qed.

Lemma find_socket_Some (sock : Socket) (m : list (jsstring * userData)) (n : jsstring) :
  find_socket sock m = Some n ->
  exists d, In (n, d) m /\ socket d = sock.
Proof.
  induction m as [|[k' d'] r IH]; simpl; [discriminate|].
  destruct (Nat.eqb (socket d') sock) eqn:E.
  - intros H. injection H as ->. apply Nat.eqb_eq in E. exists d'. auto.
  - intros H. destruct (IH H) as [d [I S]]. exists d. auto.
Qed.

Lemma find_socket_None (sock : Socket) (m : list (jsstring * userData)) :
  find_socket sock m = None <-> ~ In sock (sockets m).
Proof.
  induction m as [|[k' d'] r IH]; simpl; [tauto|].
  destruct (Nat.eqb (socket d') sock) eqn:E.
  - apply Nat.eqb_eq in E. split; [discriminate|]. intros H. exfalso. apply H. now left.
  - apply Nat.eqb_neq in E. rewrite IH. tauto.
Qed.

Lemma In_find_socket (n : jsstring) (d : userData) (m : list (jsstring * userData)) :
  NoDup (sockets m) -> In (n, d) m -> find_socket (socket d) m = Some n.
Proof.
  induction m as [|[k' d'] r IH]; simpl; [tauto|].
  intros ND [H|H].
  - injection H as -> ->. now rewrite Nat.eqb_refl.
  - inversion ND; subst. destruct (Nat.eqb (socket d') (socket d)) eqn:E.
    + apply Nat.eqb_eq in E. exfalso. apply H2. rewrite E.
      apply (in_map (fun e => socket (snd e))) in H. exact H.
    + auto.
Qed.

(** Once the name of a socket is deleted, the socket has no name. *)
Lemma find_socket_delete (sock : Socket) (n : jsstring) (m : list (jsstring * userData)) :
  NoDup (sockets m) -> find_socket sock m = Some n ->
  find_socket sock (Map_delete n m) = None.
Proof.
  intros ND H. apply find_socket_None. intros I.
  unfold sockets, Map_delete in I. apply in_map_iff in I as [[k d] [S I]].
  apply filter_In in I as [I K]. simpl in S, K.
  subst sock. rewrite (In_find_socket k d m ND I) in H.
  injection H as ->. now rewrite streq_refl in K.
Qed.

(** ** Writes and loops *)

Lemma world_eta (w : World) : mkWorld (users w) (destroyed w) (trace w) = w.
Proof. now destruct w. Qed.

Lemma sendToSocket_live (sock : Socket) (message : jsstring) (w : World) :
  is_destroyed sock w = false ->
  sendToSocket sock message w
  = mkWorld (users w) (destroyed w) (trace w ++ [line sock message]).
Proof. intros H. unfold sendToSocket. now rewrite H. Qed.

Lemma sendToSocket_dead (sock : Socket) (message : jsstring) (w : World) :
  is_destroyed sock w = true -> sendToSocket sock message w = w.
Proof. intros H. unfold sendToSocket. now rewrite H. Qed.

Lemma sendToSocket_spec (sock : Socket) (message : jsstring) (w : World) :
  sendToSocket sock message w
  = mkWorld (users w) (destroyed w)
            (trace w ++ if live w sock then [line sock message] else []).
Proof.
  unfold sendToSocket, live. destruct (is_destroyed sock w); simpl; auto.
  now rewrite app_nil_r, world_eta.
Qed.

Lemma broadcast_fold (message : jsstring) (ex : option Socket)
      (l : list (jsstring * userData)) (w : World) :
  fold_left
    (fun w' e =>
       let sock := socket (snd e) in
       if differs sock ex && negb (is_destroyed sock w')
       then sendToSocket sock message w' else w') l w
  = mkWorld (users w) (destroyed w)
      (trace w ++ map (fun s => line s message)
         (map (fun e => socket (snd e))
            (filter (fun e => differs (socket (snd e)) ex && live w (socket (snd e))) l))).
Proof.
  revert w. induction l as [|e l IH]; intros w; simpl.
  - now rewrite app_nil_r, world_eta.
  - unfold live at 1. destruct (differs (socket (snd e)) ex); simpl.
    + destruct (is_destroyed (socket (snd e)) w) eqn:D; simpl.
      * apply IH.
      * rewrite sendToSocket_live by assumption. rewrite IH. simpl.
        rewrite <- app_assoc. reflexivity.
    + apply IH.
Qed.

Lemma broadcast_spec (message : jsstring) (ex : option Socket) (w : World) :
  broadcast message ex w
  = mkWorld (users w) (destroyed w)
      (trace w ++ map (fun s => line s message) (recipients ex w)).
Proof. apply broadcast_fold. Qed.

Lemma broadcastToAll_spec (message : jsstring) (w : World) :
  broadcastToAll message w
  = mkWorld (users w) (destroyed w)
      (trace w ++ map (fun s => line s message) (recipients None w)).
Proof. apply (broadcast_fold message None). Qed.

Lemma who_fold (sock : Socket) (l : list (jsstring * userData)) (w : World) :
  fold_left (fun w' e => sendToSocket sock (USER_line (fst e)) w') l w
  = mkWorld (users w) (destroyed w)
      (trace w ++ if live w sock
                  then map (fun e => line sock (USER_line (fst e))) l else []).
Proof.
  revert w. induction l as [|e l IH]; intros w; simpl.
  - destruct (live w sock); now rewrite app_nil_r, world_eta.
  - unfold live. destruct (is_destroyed sock w) eqn:D; simpl.
    + rewrite sendToSocket_dead, IH by assumption. unfold live. now rewrite D.
    + rewrite sendToSocket_live, IH by assumption.
      unfold live, is_destroyed in *; simpl. rewrite D; simpl.
      now rewrite <- app_assoc.
Qed.

Lemma emitted_app (w w' : World) (l : list event) :
  trace w' = trace w ++ l -> emitted w w' = l.
Proof.
  intros H. unfold emitted. rewrite H.
  rewrite skipn_app, skipn_all, Nat.sub_diag. reflexivity.
Qed.

(** ** The invariant of the registry *)

Lemma Inv_users (w w' : World) : users w' = users w -> Inv w -> Inv w'.
Proof. unfold Inv. now intros ->. Qed.

Lemma users_sendToSocket (sock : Socket) (m : jsstring) (w : World) :
  users (sendToSocket sock m w) = users w.
Proof. now rewrite sendToSocket_spec. Qed.

Lemma destroyed_sendToSocket (sock : Socket) (m : jsstring) (w : World) :
  destroyed (sendToSocket sock m w) = destroyed w.
Proof. now rewrite sendToSocket_spec. Qed.

Lemma Forall_good_set (k : jsstring) (v d : userData) (m : list (jsstring * userData)) :
  Map_get k m = Some d -> disconnecting v = false ->
  Forall good m -> Forall good (Map_set k v m).
Proof.
  induction m as [|[k' d'] r IH]; simpl; [discriminate|].
  intros H V F. inversion F; subst. destruct (streq k' k) eqn:E.
  - constructor; auto. destruct H2 as [A [B _]]. repeat split; auto.
  - constructor; auto.
Qed.

Lemma find_socket_Map_get (sock : Socket) (n : jsstring) (w : World) :
  Inv w -> getUsernameBySocket sock w = Some n ->
  exists d, Map_get n (users w) = Some d /\ socket d = sock /\ good (n, d).
Proof.
  intros [NK [NS G]] H. destruct (find_socket_Some _ _ _ H) as [d [I S]].
  exists d. repeat split; auto.
  - now apply In_Map_get.
  - apply (proj1 (Forall_forall _ _) G _ I).
  - apply (proj1 (Forall_forall _ _) G _ I).
  - apply (proj1 (Forall_forall _ _) G _ I).
Qed.

(** [updateActivity] on a socket with a session: only the time stamp of
    that session moves. *)
Lemma updateActivity_session (now : Z) (sock : Socket) (n : jsstring) (w : World) :
  Inv w -> getUsernameBySocket sock w = Some n ->
  exists d, Map_get n (users w) = Some d /\
            updateActivity now sock w
            = set_users (Map_set n (touch now d) (users w)) w.
Proof.
  intros I H. destruct (find_socket_Map_get _ _ _ I H) as [d [G [S [A _]]]].
  exists d. split; auto. unfold updateActivity. rewrite H.
  simpl in A. rewrite A. unfold Map_has. rewrite G. reflexivity.
Qed.

Lemma updateActivity_nosession (now : Z) (sock : Socket) (w : World) :
  getUsernameBySocket sock w = None -> updateActivity now sock w = w.
Proof. intros H. unfold updateActivity. now rewrite H. Qed.

Lemma updateActivity_frame (now : Z) (sock : Socket) (w : World) :
  Inv w ->
  let w' := updateActivity now sock w in
  Inv w' /\ keys (users w') = keys (users w) /\
  sockets (users w') = sockets (users w) /\
  destroyed w' = destroyed w /\ trace w' = trace w /\
  (forall s, getUsernameBySocket s w' = getUsernameBySocket s w).
Proof.
  intros I. destruct (getUsernameBySocket sock w) as [n|] eqn:H.
  - destruct (updateActivity_session now sock n w I H) as [d [G ->]].
    simpl. destruct I as [NK [NS F]]. unfold Inv. simpl.
    rewrite (Map_set_keys _ _ _ _ G), (Map_set_sockets n (touch now d) d _ G eq_refl).
    repeat split; auto.
    + apply (Forall_good_set _ _ d); auto.
      destruct (find_socket_Map_get _ _ _ (conj NK (conj NS F)) H)
        as [d' [G' [_ [_ [_ D]]]]].
      rewrite G in G'. injection G' as <-. exact D.
    + intros s. unfold getUsernameBySocket. simpl.
      apply (Map_set_find_socket _ _ d); auto.
  - rewrite (updateActivity_nosession _ _ _ H). simpl. repeat split; auto; apply I.
Qed.

(** ** Teardown *)

Lemma ensureDestroyed_spec (sock : Socket) (w : World) :
  ensureDestroyed sock w
  = mkWorld (users w)
            (if is_destroyed sock w then destroyed w else sock :: destroyed w)
            (trace w ++ if live w sock then [EvDestroy sock] else []).
Proof.
  unfold ensureDestroyed, destroy, live.
  destruct (is_destroyed sock w); simpl; auto.
  now rewrite app_nil_r, world_eta.
Qed.

Lemma is_destroyed_ensureDestroyed (sock : Socket) (w : World) :
  is_destroyed sock (ensureDestroyed sock w) = true.
Proof.
  rewrite ensureDestroyed_spec. unfold is_destroyed at 1. simpl.
  destruct (is_destroyed sock w) eqn:D; [exact D|].
  simpl. now rewrite Nat.eqb_refl.
Qed.

Lemma ensureDestroyed_dead (sock : Socket) (w : World) :
  is_destroyed sock w = true -> ensureDestroyed sock w = w.
Proof. intros H. unfold ensureDestroyed. now rewrite H. Qed.

(** [handleDisconnect] on a socket that has a session. *)
Lemma handleDisconnect_session (sock : Socket) (n : jsstring) (w : World) :
  Inv w -> getUsernameBySocket sock w = Some n ->
  handleDisconnect sock w
  = mkWorld (Map_delete n (users w))
            (if is_destroyed sock w then destroyed w else sock :: destroyed w)
            (trace w ++ teardown_events n sock w).
Proof.
  intros I H. destruct (find_socket_Map_get _ _ _ I H) as [d [G [S [A [_ D]]]]].
  simpl in A, D. unfold handleDisconnect. rewrite H, A, G, D.
  rewrite ensureDestroyed_spec, broadcast_spec. simpl.
  rewrite Map_delete_set. unfold teardown_events, remaining, live, is_destroyed.
  simpl. rewrite <- !app_assoc. reflexivity.
Qed.

(** [handleDisconnect] on a socket that has no session. *)
Lemma handleDisconnect_nosession (sock : Socket) (w : World) :
  getUsernameBySocket sock w = None ->
  handleDisconnect sock w = ensureDestroyed sock w.
Proof. intros H. unfold handleDisconnect. now rewrite H. Qed.

Lemma Inv_delete (n : jsstring) (w w' : World) :
  users w' = Map_delete n (users w) -> Inv w -> Inv w'.
Proof.
  intros E [NK [NS F]]. unfold Inv. rewrite E. unfold Map_delete, keys, sockets.
  repeat split.
  - now apply NoDup_map_filter.
  - now apply NoDup_map_filter.
  - apply Forall_forall. intros x X. apply filter_In in X as [X _].
    apply (proj1 (Forall_forall _ _) F _ X).
Qed.

Lemma handleDisconnect_Inv (sock : Socket) (w : World) :
  Inv w -> Inv (handleDisconnect sock w).
Proof.
  intros I. destruct (getUsernameBySocket sock w) as [n|] eqn:E.
  - rewrite (handleDisconnect_session _ _ _ I E).
    apply (Inv_delete n w); auto.
  - rewrite (handleDisconnect_nosession _ _ E), ensureDestroyed_spec.
    apply (Inv_users w); auto.
Qed.

(** After its teardown a socket has no session and is destroyed. *)
Lemma handleDisconnect_done (sock : Socket) (w : World) :
  Inv w ->
  getUsernameBySocket sock (handleDisconnect sock w) = None /\
  is_destroyed sock (handleDisconnect sock w) = true.
Proof.
  intros I. destruct (getUsernameBySocket sock w) as [n|] eqn:E.
  - rewrite (handleDisconnect_session _ _ _ I E). split.
    + unfold getUsernameBySocket. simpl. apply find_socket_delete; auto. apply I.
    + unfold is_destroyed at 1. simpl. destruct (is_destroyed sock w) eqn:D; auto.
      simpl. now rewrite Nat.eqb_refl.
  - rewrite (handleDisconnect_nosession _ _ E). split.
    + rewrite ensureDestroyed_spec. exact E.
    + apply is_destroyed_ensureDestroyed.
Qed.

(** A second invocation for the same socket does nothing. *)
Lemma handleDisconnect_again (sock : Socket) (w : World) :
  Inv w ->
  handleDisconnect sock (handleDisconnect sock w) = handleDisconnect sock w.
Proof.
  intros I. destruct (handleDisconnect_done sock w I) as [N D].
  rewrite (handleDisconnect_nosession _ _ N). now apply ensureDestroyed_dead.
Qed.

Lemma handleDisconnect_iter (sock : Socket) (w : World) (k : nat) :
  Inv w ->
  Nat.iter (S k) (handleDisconnect sock) w = handleDisconnect sock w.
Proof.
  intros I. induction k as [|k IH]; [reflexivity|].
  change (Nat.iter (S (S k)) (handleDisconnect sock) w)
    with (handleDisconnect sock (Nat.iter (S k) (handleDisconnect sock) w)).
  rewrite IH. now apply handleDisconnect_again.
Qed.

(** ** The command engine *)

Lemma handleCommand_blank (now : Z) (sock : Socket) (data : jsstring) (w : World) :
  trim data = [] -> handleCommand now sock data w = w.
Proof. intros H. unfold handleCommand. now rewrite H. Qed.

(** LOGIN on a socket that has no session. *)
Lemma handleCommand_login (now : Z) (sock : Socket) (data : jsstring) (w : World) :
  trim data <> [] -> command_of data = lit "LOGIN" ->
  getUsernameBySocket sock w = None ->
  handleCommand now sock data w
  = let newUsername := text_from 1 data in
    if negb (nonempty newUsername) then
      sendToSocket sock (lit "ERR invalid-username") w
    else if Map_has newUsername (users w) then
      sendToSocket sock (lit "ERR username-taken") w
    else
      sendToSocket sock (lit "OK")
        (emit (EvSet newUsername sock)
           (set_users (Map_set newUsername (mkUser sock now false) (users w)) w)).
Proof.
  intros T C N. unfold handleCommand.
  apply nonempty_true in T. rewrite T. simpl negb. cbv iota.
  rewrite (updateActivity_nosession _ _ _ N), N.
  fold (parts_of data). fold (command_of data). rewrite C.
  rewrite streq_refl. reflexivity.
Qed.

(** LOGIN on a socket that has a session. *)
Lemma handleCommand_relogin (now : Z) (sock : Socket) (data n : jsstring) (w : World) :
  Inv w -> trim data <> [] -> command_of data = lit "LOGIN" ->
  getUsernameBySocket sock w = Some n ->
  handleCommand now sock data w
  = sendToSocket sock (lit "ERR already-logged-in") (updateActivity now sock w).
Proof.
  intros I T C N. unfold handleCommand.
  apply nonempty_true in T. rewrite T. simpl negb. cbv iota.
  destruct (updateActivity_frame now sock w I) as [I' [_ [_ [_ [_ U]]]]].
  rewrite U, N. fold (parts_of data). fold (command_of data). rewrite C.
  rewrite streq_refl.
  destruct (find_socket_Map_get _ _ _ I N) as [d [_ [_ [A _]]]].
  simpl in A. simpl. now rewrite A.
Qed.

(** Any other command on a socket that has no session. *)
Lemma handleCommand_not_logged_in (now : Z) (sock : Socket) (data : jsstring) (w : World) :
  trim data <> [] -> command_of data <> lit "LOGIN" ->
  getUsernameBySocket sock w = None ->
  handleCommand now sock data w = sendToSocket sock (lit "ERR not-logged-in") w.
Proof.
  intros T C N. unfold handleCommand.
  apply nonempty_true in T. rewrite T. simpl negb. cbv iota.
  rewrite (updateActivity_nosession _ _ _ N), N.
  fold (parts_of data). fold (command_of data).
  apply streq_neq in C. rewrite C. reflexivity.
Qed.

(** The dispatch of the commands that need a session, on the world [w]
    that [updateActivity] leaves. *)
Lemma handleCommand_session (now : Z) (sock : Socket) (data n : jsstring) (w : World) :
  Inv w -> trim data <> [] -> command_of data <> lit "LOGIN" ->
  getUsernameBySocket sock w = Some n ->
  handleCommand now sock data w
  = let w := updateActivity now sock w in
    let parts := parts_of data in
    let command := command_of data in
    if streq command (lit "MSG") then
      let text := text_from 1 data in
      if negb (nonempty text) then sendToSocket sock (lit "ERR empty-message") w
      else broadcastToAll (MSG_line n text) w
    else if streq command (lit "WHO") then
      if Nat.eqb (length (users w)) 0 then sendToSocket sock (lit "INFO no-users-online") w
      else fold_left (fun w' e => sendToSocket sock (USER_line (fst e)) w') (users w) w
    else if streq command (lit "DM") then
      if Nat.ltb (length parts) 3 then sendToSocket sock (lit "ERR invalid-dm-format") w
      else
        let targetUsername := nth 1 parts [] in
        let text := text_from 2 data in
        if negb (nonempty text) then sendToSocket sock (lit "ERR empty-message") w
        else if negb (Map_has targetUsername (users w)) then
          sendToSocket sock (lit "ERR user-not-found") w
        else
          match Map_get targetUsername (users w) with
          | None => sendToSocket sock (lit "ERR user-not-found") w
          | Some targetData =>
              if is_destroyed (socket targetData) w then
                sendToSocket sock (lit "ERR user-not-found") w
              else
                sendToSocket sock (DM_SENT_line targetUsername)
                  (sendToSocket (socket targetData) (DM_line n text) w)
          end
    else if streq command (lit "PING") then sendToSocket sock (lit "PONG") w
    else sendToSocket sock (lit "ERR unknown-command") w.
Proof.
  intros I T C N. unfold handleCommand.
  apply nonempty_true in T. rewrite T. simpl negb. cbv iota.
  destruct (updateActivity_frame now sock w I) as [I' [_ [_ [_ [_ U]]]]].
  rewrite U, N. fold (parts_of data). fold (command_of data).
  apply streq_neq in C. rewrite C.
  destruct (find_socket_Map_get _ _ _ I N) as [d [_ [_ [A _]]]].
  simpl in A. rewrite A. reflexivity.
Qed.

Lemma users_broadcastToAll (m : jsstring) (w : World) :
  users (broadcastToAll m w) = users w.
Proof. now rewrite broadcastToAll_spec. Qed.

Lemma users_who_fold (sock : Socket) (l : list (jsstring * userData)) (w : World) :
  users (fold_left (fun w' e => sendToSocket sock (USER_line (fst e)) w') l w)
  = users w.
Proof. now rewrite who_fold. Qed.

Lemma destroyed_who_fold (sock : Socket) (l : list (jsstring * userData)) (w : World) :
  destroyed (fold_left (fun w' e => sendToSocket sock (USER_line (fst e)) w') l w)
  = destroyed w.
Proof. now rewrite who_fold. Qed.

Lemma destroyed_broadcastToAll (m : jsstring) (w : World) :
  destroyed (broadcastToAll m w) = destroyed w.
Proof. now rewrite broadcastToAll_spec. Qed.

Create Rewrite HintDb frame.
#[local] Hint Rewrite users_sendToSocket users_broadcastToAll users_who_fold
  destroyed_sendToSocket destroyed_broadcastToAll destroyed_who_fold : frame.

(** Commands other than a successful LOGIN leave the registry as
    [updateActivity] left it and never touch the socket flags. *)
Lemma handleCommand_session_frame (now : Z) (sock : Socket) (data n : jsstring) (w : World) :
  Inv w -> trim data <> [] ->
  getUsernameBySocket sock w = Some n ->
  users (handleCommand now sock data w) = users (updateActivity now sock w) /\
  destroyed (handleCommand now sock data w) = destroyed w.
Proof.
  intros I T N.
  destruct (updateActivity_frame now sock w I) as [_ [_ [_ [D _]]]].
  destruct (list_eq_dec N.eq_dec (command_of data) (lit "LOGIN")) as [C|C].
  - rewrite (handleCommand_relogin _ _ _ _ _ I T C N).
    now autorewrite with frame.
  - rewrite (handleCommand_session _ _ _ _ _ I T C N). cbv zeta.
    split; split_ifs; autorewrite with frame; auto.
Qed.

Lemma Inv_login (now : Z) (sock : Socket) (n : jsstring) (w : World) :
  Inv w -> getUsernameBySocket sock w = None ->
  Map_has (trim n) (users w) = false -> nonempty (trim n) = true ->
  Map_set (trim n) (mkUser sock now false) (users w)
  = users w ++ [(trim n, mkUser sock now false)] /\
  forall w', users w' = Map_set (trim n) (mkUser sock now false) (users w) ->
             Inv w'.
Proof.
  intros [NK [NS F]] S H E. apply Map_has_false in H.
  rewrite (Map_set_new _ _ _ H). split; auto.
  intros w' E'. unfold Inv, keys, sockets. rewrite E', !map_app. simpl.
  repeat split.
  - apply NoDup_app; repeat constructor; auto.
    intros x X [<-|[]]. now apply H.
  - apply NoDup_app; repeat constructor; auto.
    intros x X [<-|[]]. apply find_socket_None in S. now apply S.
  - apply Forall_app. split; auto. constructor; auto.
    repeat split; auto. simpl. apply trim_idem.
Qed.

Lemma handleCommand_Inv (now : Z) (sock : Socket) (data : jsstring) (w : World) :
  Inv w -> Inv (handleCommand now sock data w).
Proof.
  intros I. destruct (list_eq_dec N.eq_dec (trim data) []) as [T|T].
  { now rewrite handleCommand_blank. }
  destruct (getUsernameBySocket sock w) as [n|] eqn:N.
  - destruct (handleCommand_session_frame now sock data n w I T N) as [U _].
    apply (Inv_users _ _ U). apply updateActivity_frame; auto.
  - destruct (list_eq_dec N.eq_dec (command_of data) (lit "LOGIN")) as [C|C].
    + rewrite (handleCommand_login _ _ _ _ T C N). cbv zeta.
      destruct (nonempty (text_from 1 data)) eqn:E; simpl.
      * destruct (Map_has (text_from 1 data) (users w)) eqn:H.
        -- apply (Inv_users w); auto. now autorewrite with frame.
        -- unfold text_from in *.
           apply (Inv_login now sock _ w I N H E). now autorewrite with frame.
      * apply (Inv_users w); auto. now autorewrite with frame.
    + rewrite (handleCommand_not_logged_in _ _ _ _ T C N).
      apply (Inv_users w); auto. now autorewrite with frame.
Qed.

Lemma handleCommand_destroyed (now : Z) (sock : Socket) (data : jsstring) (w : World) :
  Inv w -> destroyed (handleCommand now sock data w) = destroyed w.
Proof.
  intros I. destruct (list_eq_dec N.eq_dec (trim data) []) as [T|T].
  { now rewrite handleCommand_blank. }
  destruct (getUsernameBySocket sock w) as [n|] eqn:N.
  - now destruct (handleCommand_session_frame now sock data n w I T N).
  - destruct (list_eq_dec N.eq_dec (command_of data) (lit "LOGIN")) as [C|C].
    + rewrite (handleCommand_login _ _ _ _ T C N). cbv zeta.
      split_ifs; now autorewrite with frame.
    + rewrite (handleCommand_not_logged_in _ _ _ _ T C N).
      now autorewrite with frame.
Qed.

(** ** Reachable worlds *)

Lemma filter_filter {A} (p q : A -> bool) (l : list A) :
  filter p (filter q l) = filter (fun x => q x && p x) l.
Proof.
  induction l as [|a l IH]; simpl; auto.
  destruct (q a); simpl; [destruct (p a)|]; now rewrite IH.
Qed.

Lemma held_find (w : World) (n : jsstring) (s : Socket) :
  Inv w -> held w (n, s) -> getUsernameBySocket s w = Some n.
Proof.
  intros [_ [NS _]] [d [I S]]. simpl in *. subst s.
  now apply In_find_socket.
Qed.

Lemma evict_spec (w : World) (n : jsstring) (s : Socket) :
  Inv w -> held w (n, s) ->
  evict w (n, s)
  = mkWorld (Map_delete n (users w))
            (if is_destroyed s w then destroyed w else s :: destroyed w)
            (trace w ++ evict_events n s w).
Proof.
  intros I H. unfold evict. simpl snd.
  assert (I1 : Inv (sendToSocket s INFO_inactivity w)).
  { apply (Inv_users w); auto. apply users_sendToSocket. }
  assert (H1 : getUsernameBySocket s (sendToSocket s INFO_inactivity w) = Some n).
  { unfold getUsernameBySocket. rewrite users_sendToSocket.
    now apply held_find. }
  rewrite (handleDisconnect_session _ _ _ I1 H1).
  rewrite sendToSocket_spec. unfold evict_events, teardown_events, remaining,
    recipients, live, is_destroyed. simpl.
  rewrite <- app_assoc. reflexivity.
Qed.

Lemma evict_events_delete (n m : jsstring) (s : Socket) (w : World) :
  In (EvDelete m) (evict_events n s w) -> m = n.
Proof.
  unfold evict_events, teardown_events. intros H.
  apply in_app_or in H as [H|H].
  - destruct (live w s); simpl in H; [destruct H as [H|[]]; discriminate|tauto].
  - destruct H as [H|H]; [congruence|].
    apply in_app_or in H as [H|H].
    + apply in_map_iff in H as [x [H _]]. discriminate.
    + destruct (live w s); simpl in H; [destruct H as [H|[]]; discriminate|tauto].
Qed.

Lemma evict_events_destroy (n : jsstring) (s s' : Socket) (w : World) :
  In (EvDestroy s') (evict_events n s w) -> s' = s.
Proof.
  unfold evict_events, teardown_events. intros H.
  apply in_app_or in H as [H|H].
  - destruct (live w s); simpl in H; [destruct H as [H|[]]; discriminate|tauto].
  - destruct H as [H|H]; [discriminate|].
    apply in_app_or in H as [H|H].
    + apply in_map_iff in H as [x [H _]]. discriminate.
    + destruct (live w s); simpl in H; [destruct H as [H|[]]; congruence|tauto].
Qed.

Lemma filter_all {A} (l : list A) : filter (fun _ => true) l = l.
Proof. induction l; simpl; congruence. Qed.

(** An eviction keeps the invariant and the other sessions of the list. *)
Lemma evict_keeps (w : World) (n : jsstring) (s : Socket) (l : list (jsstring * Socket)) :
  Inv w -> ~ In n (map fst l) -> held w (n, s) -> Forall (held w) l ->
  Inv (evict w (n, s)) /\ Forall (held (evict w (n, s))) l.
Proof.
  intros I NI Hh Ht. pose proof (evict_spec w n s I Hh) as E. split.
  - apply (Inv_delete n w); auto. now rewrite E.
  - apply Forall_forall. intros [n0 s0] X.
    destruct (proj1 (Forall_forall _ _) Ht _ X) as [d [Xi Xs]].
    exists d. split; auto. rewrite E. simpl. unfold Map_delete.
    apply filter_In. split; auto. simpl.
    apply negb_true_iff, streq_neq. intros ->. apply NI.
    apply (in_map fst) in X. exact X.
Qed.

Lemma is_destroyed_In (s : Socket) (w : World) :
  is_destroyed s w = true <-> In s (destroyed w).
Proof.
  unfold is_destroyed. rewrite existsb_exists. split.
  - intros [x [I E]]. apply Nat.eqb_eq in E. now subst.
  - intros I. exists s. split; auto. apply Nat.eqb_refl.
Qed.

Lemma NoDup_flag (s : Socket) (w : World) :
  NoDup (destroyed w) ->
  NoDup (if is_destroyed s w then destroyed w else s :: destroyed w).
Proof.
  intros ND. destruct (is_destroyed s w) eqn:D; auto.
  constructor; auto. intros I. apply is_destroyed_In in I. congruence.
Qed.

(** The sweep sets the flag of a socket at most once. *)
Lemma sweep_fold_destroyed (l : list (jsstring * Socket)) (w : World) :
  Inv w -> NoDup (map fst l) -> Forall (held w) l ->
  NoDup (destroyed w) -> NoDup (destroyed (fold_left evict l w)).
Proof.
  revert w. induction l as [|[n s] l IH]; intros w I ND H F; auto.
  simpl map in ND. inversion ND as [|? ? NI ND']; subst.
  inversion H as [|? ? Hh Ht]; subst.
  destruct (evict_keeps w n s l I NI Hh Ht) as [I1 H1].
  simpl fold_left. apply IH; auto.
  rewrite (evict_spec w n s I Hh). simpl. now apply NoDup_flag.
Qed.

(** The second loop of the sweep, on any list of sessions that are in the
    registry under distinct names. *)
Lemma sweep_fold (l : list (jsstring * Socket)) (w : World) :
  Inv w -> NoDup (map fst l) -> Forall (held w) l ->
  let w' := fold_left evict l w in
  Inv w' /\
  users w'
  = filter (fun e => negb (existsb (streq (fst e)) (map fst l))) (users w) /\
  (forall s, is_destroyed s w'
             = is_destroyed s w || existsb (Nat.eqb s) (map snd l)) /\
  exists ev, trace w' = trace w ++ ev /\
    (forall n s, In (n, s) l -> is_destroyed s w = false ->
       exists pre mid post,
         ev = pre ++ line s INFO_inactivity :: mid ++ EvDelete n :: post /\
         ~ In (EvDelete n) pre) /\
    (forall n, In (EvDelete n) ev -> In n (map fst l)) /\
    (forall s, In (EvDestroy s) ev -> In s (map snd l)).
Proof.
  revert w. induction l as [|[n s] l IH]; intros w I ND H.
  - simpl. split; [exact I|split; [|split]].
    + symmetry. apply filter_all.
    + intros s. now rewrite orb_false_r.
    + exists []. rewrite app_nil_r. repeat split; auto; intros; contradiction.
  - simpl map in ND. inversion ND as [|? ? NI ND']; subst.
    inversion H as [|? ? Hh Ht]; subst.
    pose proof (evict_spec w n s I Hh) as E.
    destruct (evict_keeps w n s l I NI Hh Ht) as [I1 H1].
    destruct (IH _ I1 ND' H1) as [I' [U [D [ev [T [P1 [P2 P3]]]]]]].
    assert (D1 : forall s0, is_destroyed s0 (evict w (n, s))
                            = is_destroyed s0 w || Nat.eqb s0 s).
    { intros s0. rewrite E. unfold is_destroyed at 1. simpl.
      destruct (is_destroyed s w) eqn:Ds.
      - fold (is_destroyed s0 w). destruct (Nat.eqb s0 s) eqn:Es.
        + apply Nat.eqb_eq in Es. subst. rewrite Ds. reflexivity.
        + now rewrite orb_false_r.
      - simpl. fold (is_destroyed s0 w). apply orb_comm. }
    simpl fold_left. split; [exact I'|split; [|split]].
    + rewrite U, E. simpl. unfold Map_delete. rewrite filter_filter.
      apply filter_ext. intros e. now rewrite negb_orb.
    + intros s0. rewrite D, D1. simpl. now rewrite orb_assoc.
    + exists (evict_events n s w ++ ev). split; [|split; [|split]].
      * rewrite T, E. simpl. now rewrite app_assoc.
      * intros n0 s0 [X|X] L.
        -- injection X as <- <-. exists [], [].
           unfold evict_events, teardown_events, live. rewrite L. simpl.
           eexists. split; [reflexivity|]. auto.
        -- assert (NE : n0 <> n).
           { intros ->. apply NI. apply (in_map fst) in X. exact X. }
           assert (SE : s0 <> s).
           { intros ->. apply NE.
             pose proof (held_find w n s I Hh) as F1.
             pose proof (held_find w n0 s I (proj1 (Forall_forall _ _) Ht _ X)) as F2.
             congruence. }
           assert (L1 : is_destroyed s0 (evict w (n, s)) = false).
           { rewrite D1, L. simpl. now apply Nat.eqb_neq. }
           destruct (P1 n0 s0 X L1) as [pre [mid [post [Ev Np]]]].
           exists (evict_events n s w ++ pre), mid, post. split.
           ++ rewrite Ev. now rewrite app_assoc.
           ++ intros Y. apply in_app_or in Y as [Y|Y]; [|contradiction].
              apply evict_events_delete in Y. contradiction.
      * intros n0 Y. simpl. apply in_app_or in Y as [Y|Y].
        -- left. apply evict_events_delete in Y. congruence.
        -- right. auto.
      * intros s0 Y. simpl. apply in_app_or in Y as [Y|Y].
        -- left. apply evict_events_destroy in Y. congruence.
        -- right. auto.
Qed.

Lemma idle_iff (now : Z) (d : userData) :
  idle now d = true
  <-> (now - lastActivity d > IDLE_TIMEOUT)%Z /\ disconnecting d = false.
Proof.
  unfold idle. rewrite andb_true_iff, negb_true_iff, Z.gtb_gt. tauto.
Qed.

Lemma usersToDisconnect_names (now : Z) (w : World) :
  map fst (usersToDisconnect now w)
  = keys (filter (fun e => idle now (snd e)) (users w)).
Proof. unfold usersToDisconnect, keys. rewrite map_map. reflexivity. Qed.

Lemma usersToDisconnect_held (now : Z) (w : World) :
  Forall (held w) (usersToDisconnect now w).
Proof.
  apply Forall_forall. intros [n s] X. unfold usersToDisconnect in X.
  apply in_map_iff in X as [[k d] [E X]]. apply filter_In in X as [X _].
  simpl in E. injection E as <- <-. exists d. auto.
Qed.

Lemma NoDup_keys_inj (m : list (jsstring * userData)) (k : jsstring) (d d' : userData) :
  NoDup (keys m) -> In (k, d) m -> In (k, d') m -> d = d'.
Proof.
  intros ND A B. apply (In_Map_get _ _ _ ND) in A, B. congruence.
Qed.

(** Whether a session of the registry was pushed to [usersToDisconnect]. *)
Lemma selected_idle (now : Z) (w : World) (e : jsstring * userData) :
  Inv w -> In e (users w) ->
  existsb (streq (fst e)) (map fst (usersToDisconnect now w)) = idle now (snd e).
Proof.
  intros [NK _] X. rewrite usersToDisconnect_names.
  destruct (idle now (snd e)) eqn:E.
  - apply existsb_exists. exists (fst e). split; [|apply streq_refl].
    apply in_map, filter_In. auto.
  - destruct (existsb _ _) eqn:B; auto. apply existsb_exists in B as [k [K S]].
    apply streq_eq in S. subst k. apply in_map_iff in K as [[k d] [K1 K2]].
    apply filter_In in K2 as [K2 K3]. simpl in *. destruct e as [k' d']. simpl in *.
    subst k'. rewrite (NoDup_keys_inj _ _ _ _ NK X K2) in E. congruence.
Qed.

(** The whole sweep. *)
Lemma checkIdleUsers_spec (now : Z) (w : World) :
  Inv w ->
  let w' := checkIdleUsers now w in
  Inv w' /\
  users w' = filter (fun e => negb (idle now (snd e))) (users w) /\
  (forall s, is_destroyed s w'
             = is_destroyed s w
               || existsb (Nat.eqb s) (map snd (usersToDisconnect now w))) /\
  exists ev, trace w' = trace w ++ ev /\
    (forall n s, In (n, s) (usersToDisconnect now w) -> is_destroyed s w = false ->
       exists pre mid post,
         ev = pre ++ line s INFO_inactivity :: mid ++ EvDelete n :: post /\
         ~ In (EvDelete n) pre) /\
    (forall n, In (EvDelete n) ev -> In n (map fst (usersToDisconnect now w))) /\
    (forall s, In (EvDestroy s) ev -> In s (map snd (usersToDisconnect now w))).
Proof.
  intros I. unfold checkIdleUsers.
  assert (ND : NoDup (map fst (usersToDisconnect now w))).
  { rewrite usersToDisconnect_names. apply NoDup_map_filter, I. }
  destruct (sweep_fold _ w I ND (usersToDisconnect_held now w))
    as [I' [U [D X]]].
  split; [exact I'|split; [|split; [exact D|exact X]]].
  rewrite U. apply filter_ext_in. intros e E.
  now rewrite (selected_idle now w e I E).
Qed.

Lemma checkIdleUsers_Inv (now : Z) (w : World) :
  Inv w -> Inv (checkIdleUsers now w).
Proof. intros I. apply (checkIdleUsers_spec now w I). Qed.

Lemma shutdown_Inv (w : World) : Inv (shutdown w).
Proof. unfold shutdown, Inv. simpl. repeat constructor. Qed.

Lemma step_Inv (w w' : World) : step w w' -> Inv w -> Inv w'.
Proof.
  intros S I. destruct S.
  - now apply handleCommand_Inv.
  - now apply handleDisconnect_Inv.
  - now apply checkIdleUsers_Inv.
  - apply (Inv_users w); auto.
  - apply shutdown_Inv.
Qed.

(** The invariant holds in every reachable world. *)
Lemma reachable_Inv (w : World) : reachable w -> Inv w.
Proof.
  induction 1 as [|w w' R IH S].
  - unfold Inv. simpl. repeat constructor.
  - exact (step_Inv w w' S IH).
Qed.

Lemma handleDisconnect_destroyed (sock : Socket) (w : World) :
  Inv w ->
  destroyed (handleDisconnect sock w)
  = if is_destroyed sock w then destroyed w else sock :: destroyed w.
Proof.
  intros I. destruct (getUsernameBySocket sock w) as [n|] eqn:E.
  - now rewrite (handleDisconnect_session _ _ _ I E).
  - now rewrite (handleDisconnect_nosession _ _ E), ensureDestroyed_spec.
Qed.

Lemma destroy_fold_NoDup (l : list (jsstring * userData)) (w : World) :
  NoDup (destroyed w) ->
  NoDup (destroyed (fold_left (fun w' e => destroy (socket (snd e)) w') l w)).
Proof.
  revert w. induction l as [|e l IH]; intros w ND; simpl; auto.
  apply IH. unfold destroy. simpl. now apply NoDup_flag.
Qed.

Lemma step_destroyed (w w' : World) :
  step w w' -> Inv w -> NoDup (destroyed w) -> NoDup (destroyed w').
Proof.
  intros S I ND. destruct S.
  - now rewrite handleCommand_destroyed.
  - rewrite handleDisconnect_destroyed by assumption. now apply NoDup_flag.
  - unfold checkIdleUsers. apply sweep_fold_destroyed; auto.
    + rewrite usersToDisconnect_names. apply NoDup_map_filter, I.
    + apply usersToDisconnect_held.
  - simpl. now apply NoDup_flag.
  - unfold shutdown. simpl. apply destroy_fold_NoDup.
    now rewrite broadcast_spec.
Qed.

(** The list of flags holds a socket once: a connection is destroyed at
    most once, by the runtime or by the server. *)
Lemma reachable_destroyed (w : World) : reachable w -> NoDup (destroyed w).
Proof.
  induction 1 as [|w w' R IH S].
  - constructor.
  - apply (step_destroyed w w' S); auto. now apply reachable_Inv.
Qed.

Lemma steps_Inv (w w' : World) : steps w w' -> Inv w -> Inv w'.
Proof.
  induction 1 as [|w w' w'' S IH T]; auto.
  intros I. apply (step_Inv w' w'' T). auto.
Qed.


Lemma find_socket_filter (sock : Socket) (keep : jsstring * userData -> bool)
      (m : list (jsstring * userData)) :
  find_socket sock m = None -> find_socket sock (filter keep m) = None.
Proof.
  rewrite !find_socket_None. intros H I. apply H.
  unfold sockets in *. apply in_map_iff in I as [e [E I]].
  apply filter_In in I as [I _]. rewrite <- E.
  now apply (in_map (fun e => socket (snd e))).
Qed.

Lemma find_socket_app_other (sock : Socket) (n : jsstring) (d : userData)
      (m : list (jsstring * userData)) :
  socket d <> sock -> find_socket sock (m ++ [(n, d)]) = find_socket sock m.
Proof.
  intros NE. induction m as [|[k e] r IH]; simpl.
  - apply Nat.eqb_neq in NE. now rewrite NE.
  - now rewrite IH.
Qed.

Lemma flag_kept (sock s : Socket) (w : World) :
  In sock (destroyed w) ->
  In sock (if is_destroyed s w then destroyed w else s :: destroyed w).
Proof. intros H. destruct (is_destroyed s w); [exact H|now right]. Qed.

Lemma destroy_fold_kept (sock : Socket) (l : list (jsstring * userData)) (w : World) :
  In sock (destroyed w) ->
  In sock (destroyed (fold_left (fun w' e => destroy (socket (snd e)) w') l w)).
Proof.
  revert w. induction l as [|e l IH]; intros w H; simpl; auto.
  apply IH. unfold destroy. simpl. now apply flag_kept.
Qed.

(** A line on a live socket gives no session to a destroyed one. *)
Lemma handleCommand_other_socket (now : Z) (s sock : Socket) (data : jsstring) (w : World) :
  Inv w -> is_destroyed s w = false -> is_destroyed sock w = true ->
  getUsernameBySocket sock (handleCommand now s data w)
  = getUsernameBySocket sock w.
Proof.
  intros I L D. destruct (list_eq_dec N.eq_dec (trim data) []) as [T|T].
  { now rewrite handleCommand_blank. }
  unfold getUsernameBySocket at 1.
  destruct (getUsernameBySocket s w) as [n|] eqn:N.
  - destruct (handleCommand_session_frame now s data n w I T N) as [U _].
    rewrite U. apply updateActivity_frame, I.
  - destruct (list_eq_dec N.eq_dec (command_of data) (lit "LOGIN")) as [C|C].
    + rewrite (handleCommand_login _ _ _ _ T C N). cbv zeta.
      destruct (nonempty (text_from 1 data)) eqn:E; simpl negb; cbv iota.
      * destruct (Map_has (text_from 1 data) (users w)) eqn:H.
        -- now autorewrite with frame.
        -- autorewrite with frame. simpl. apply Map_has_false in H.
           rewrite (Map_set_new _ _ _ H). apply find_socket_app_other; auto.
           simpl. congruence.
      * now autorewrite with frame.
    + rewrite (handleCommand_not_logged_in _ _ _ _ T C N).
      now autorewrite with frame.
Qed.

(** A closed connection stays closed. *)
Lemma step_closed (sock : Socket) (w w' : World) :
  step w w' -> Inv w -> closed sock w -> closed sock w'.
Proof.
  intros S I [D N]. destruct S as [now s data w L T|s w|now w|s w|w].
  - split.
    + unfold is_destroyed. now rewrite handleCommand_destroyed.
    + now rewrite handleCommand_other_socket.
  - split.
    + apply is_destroyed_In. rewrite handleDisconnect_destroyed by assumption.
      now apply flag_kept, is_destroyed_In.
    + destruct (getUsernameBySocket s w) as [n|] eqn:E.
      * rewrite (handleDisconnect_session _ _ _ I E).
        now apply find_socket_filter.
      * now rewrite (handleDisconnect_nosession _ _ E), ensureDestroyed_spec.
  - destruct (checkIdleUsers_spec now w I) as [_ [U [F _]]]. split.
    + now rewrite F, D.
    + unfold getUsernameBySocket. rewrite U. now apply find_socket_filter.
  - split; [|exact N]. apply is_destroyed_In. simpl.
    now apply flag_kept, is_destroyed_In.
  - split; [|reflexivity]. apply is_destroyed_In. unfold shutdown. simpl.
    apply destroy_fold_kept. rewrite broadcast_spec. simpl.
    now apply is_destroyed_In.
Qed.

Lemma steps_closed (sock : Socket) (w w' : World) :
  steps w w' -> Inv w -> closed sock w -> closed sock w'.
Proof.
  induction 1 as [|w w' w'' S IH T]; auto.
  intros I C. apply (step_closed sock w' w'' T); auto.
  now apply (steps_Inv w w').
Qed.

(** The handler does nothing for a closed connection. *)
Lemma handleDisconnect_closed (sock : Socket) (w : World) :
  closed sock w -> handleDisconnect sock w = w.
Proof.
  intros [D N]. rewrite (handleDisconnect_nosession _ _ N).
  now apply ensureDestroyed_dead.
Qed.

(** The ['data'] listener is a sequence of single-line events. *)
Lemma onData_reachable (now : Z) (sock : Socket) (data : jsstring) (w : World) :
  is_destroyed sock w = false -> reachable w -> reachable (onData now sock data w).
Proof.
  unfold onData. generalize (split NEWLINE data) as l.
  intros l. revert w. induction l as [|cmd l IH]; intros w L R; simpl; auto.
  destruct (nonempty (trim cmd)) eqn:E; auto.
  apply IH.
  - unfold is_destroyed. rewrite handleCommand_destroyed; auto.
    now apply reachable_Inv.
  - apply (reach_step w); auto. apply step_command; auto.
    now apply nonempty_true.
Qed.

(** ** Lines that spell a command *)

Lemma split_app_sep (sep : N) (a s : jsstring) :
  ~ In sep a -> split sep (a ++ sep :: s) = a :: split sep s.
Proof.
  induction a as [|c a IH]; intros H; simpl.
  - now rewrite N.eqb_refl.
  - destruct (N.eqb c sep) eqn:E.
    + apply N.eqb_eq in E. subst. exfalso. apply H. now left.
    + rewrite IH; auto. intros X. apply H. now right.
Qed.

(** The line [LOGIN <n>] for a name as the registry stores names. *)
Lemma login_line (n : jsstring) :
  nonempty n = true -> trim n = n ->
  let data := lit "LOGIN " ++ n in
  trim data <> [] /\ command_of data = lit "LOGIN" /\ text_from 1 data = n.
Proof.
  intros NE T data.
  assert (TE : trimEnd n = n) by now apply trim_fix_trimEnd.
  assert (TD : trim data = lit "LOGIN" ++ SPACE :: n).
  { unfold trim, data. change (trimStart (lit "LOGIN " ++ n)) with (lit "LOGIN " ++ n).
    rewrite trimEnd_app.
    - now rewrite TE.
    - rewrite TE. now apply nonempty_true. }
  assert (P : parts_of data = lit "LOGIN" :: split SPACE n).
  { unfold parts_of. rewrite TD. apply split_app_sep.
    vm_compute. intuition discriminate. }
  split; [|split].
  - rewrite TD. discriminate.
  - unfold command_of. now rewrite P.
  - unfold text_from. rewrite P. unfold slice. simpl skipn.
    now rewrite join_split.
Qed.

(** A fresh connection logs in under a free name. *)
Lemma login_succeeds (now : Z) (sock : Socket) (n : jsstring) (w : World) :
  nonempty n = true -> trim n = n ->
  ~ In n (keys (users w)) ->
  getUsernameBySocket sock w = None -> is_destroyed sock w = false ->
  handleCommand now sock (lit "LOGIN " ++ n) w
  = mkWorld (users w ++ [(n, mkUser sock now false)]) (destroyed w)
            (trace w ++ [EvSet n sock; line sock (lit "OK")]).
Proof.
  intros NE T F S L. destruct (login_line n NE T) as [A [B C]].
  rewrite (handleCommand_login _ _ _ _ A B S). cbv zeta. rewrite C, NE.
  simpl negb. cbv iota. rewrite (proj2 (Map_has_false _ _) F).
  rewrite sendToSocket_live by exact L. simpl.
  rewrite (Map_set_new _ _ _ F), <- app_assoc. reflexivity.
Qed.

Lemma Inv_key (w : World) (n : jsstring) :
  Inv w -> In n (keys (users w)) -> nonempty n = true /\ trim n = n.
Proof.
  intros [_ [_ F]] H. apply in_map_iff in H as [e [<- H]].
  destruct (proj1 (Forall_forall _ _) F _ H) as [A [B _]]. auto.
Qed.

(** ** What one command appends to the trace *)

Lemma live_destroyed (w w' : World) (s : Socket) :
  destroyed w' = destroyed w -> live w' s = live w s.
Proof. unfold live, is_destroyed. now intros ->. Qed.

Lemma trace_sendToSocket (sock : Socket) (m : jsstring) (w : World) :
  trace (sendToSocket sock m w) = trace w ++ reply w sock m.
Proof. now rewrite sendToSocket_spec. Qed.

Lemma emitted_refl (w : World) : emitted w w = [].
Proof. unfold emitted. apply skipn_all. Qed.

Lemma emitted_send (w w1 : World) (sock : Socket) (m : jsstring) :
  trace w1 = trace w -> destroyed w1 = destroyed w ->
  emitted w (sendToSocket sock m w1) = reply w sock m.
Proof.
  intros T D. apply emitted_app. rewrite trace_sendToSocket, T.
  unfold reply. now rewrite (live_destroyed w w1 sock D).
Qed.

Lemma Map_get_set (n k : jsstring) (v d : userData) (m : list (jsstring * userData)) :
  Map_get n m = Some d ->
  Map_get k (Map_set n v m) = if streq n k then Some v else Map_get k m.
Proof.
  induction m as [|[k' d'] r IH]; simpl; [discriminate|].
  destruct (streq k' n) eqn:E; simpl.
  - intros _. apply streq_eq in E. subst k'. now destruct (streq n k).
  - intros H. rewrite (IH H). destruct (streq n k) eqn:E1; auto.
    destruct (streq k' k) eqn:E2; auto.
    apply streq_eq in E1, E2. subst. now rewrite streq_refl in E.
Qed.

(** [updateActivity] moves no session to another socket. *)
Lemma Map_get_touch (now : Z) (sock : Socket) (w : World) (k : jsstring) :
  Inv w ->
  match Map_get k (users (updateActivity now sock w)) with
  | Some d' => exists d, Map_get k (users w) = Some d /\ socket d' = socket d
  | None => Map_get k (users w) = None
  end.
Proof.
  intros I. destruct (getUsernameBySocket sock w) as [n|] eqn:N.
  - destruct (updateActivity_session now sock n w I N) as [d [G ->]]. simpl.
    rewrite (Map_get_set _ _ _ _ _ G). destruct (streq n k) eqn:E.
    + apply streq_eq in E. subst. exists d. auto.
    + destruct (Map_get k (users w)) as [d'|]; eauto.
  - rewrite (updateActivity_nosession _ _ _ N).
    destruct (Map_get k (users w)) as [d'|]; eauto.
Qed.

Lemma dm_text_from (data : jsstring) :
  3 <= length (parts_of data) -> nonempty (text_from 2 data) = true.
Proof. apply dm_text_nonempty. Qed.

(** The DM branch, whole: the events of a DM command of the session [n]. *)
Lemma dm_emitted (now : Z) (sock : Socket) (data n : jsstring) (w : World) :
  Inv w -> trim data <> [] -> command_of data = lit "DM" ->
  getUsernameBySocket sock w = Some n ->
  emitted w (handleCommand now sock data w)
  = if Nat.ltb (length (parts_of data)) 3 then
      reply w sock (lit "ERR invalid-dm-format")
    else
      match Map_get (nth 1 (parts_of data) []) (users w) with
      | None => reply w sock (lit "ERR user-not-found")
      | Some d =>
          if is_destroyed (socket d) w then reply w sock (lit "ERR user-not-found")
          else line (socket d) (DM_line n (text_from 2 data))
               :: reply w sock (DM_SENT_line (nth 1 (parts_of data) []))
      end.
Proof.
  intros I T C N.
  destruct (updateActivity_frame now sock w I) as [_ [_ [_ [D [Tr _]]]]].
  rewrite handleCommand_session with (n := n); auto.
  2:{ rewrite C. discriminate. }
  cbv zeta. rewrite C.
  change (streq (lit "DM") (lit "MSG")) with false.
  change (streq (lit "DM") (lit "WHO")) with false.
  change (streq (lit "DM") (lit "DM")) with true. cbv iota.
  destruct (Nat.ltb (length (parts_of data)) 3) eqn:L.
  { now apply emitted_send. }
  apply Nat.ltb_ge in L.
  rewrite (dm_text_from data L). simpl negb. cbv iota.
  pose proof (Map_get_touch now sock w (nth 1 (parts_of data) []) I) as G.
  unfold Map_has.
  destruct (Map_get (nth 1 (parts_of data) []) (users (updateActivity now sock w)))
    as [d'|].
  - destruct G as [d [G S]]. rewrite G. simpl negb. cbv iota.
    unfold is_destroyed at 1. rewrite D, S. fold (is_destroyed (socket d) w).
    destruct (is_destroyed (socket d) w) eqn:X.
    + now apply emitted_send.
    + apply emitted_app. rewrite !trace_sendToSocket, Tr.
      rewrite <- app_assoc. f_equal. unfold reply at 1.
      rewrite (live_destroyed w _ _ D). unfold live at 1. rewrite X. simpl.
      f_equal. unfold reply.
      rewrite (live_destroyed w (sendToSocket _ _ _) sock); auto.
      now rewrite destroyed_sendToSocket.
  - rewrite G. simpl negb. cbv iota. now apply emitted_send.
Qed.

(** ** The example worlds are reachable *)

Lemma alice_online_reachable : reachable alice_online.
Proof. unfold alice_online. by_command. apply reach_initial. Qed.

Lemma both_online_reachable : reachable both_online.
Proof. unfold both_online. by_command. apply alice_online_reachable. Qed.

Lemma bob_lost_reachable : reachable bob_lost.
Proof.
  unfold bob_lost. eapply reach_step; [apply both_online_reachable|].
  apply step_fail.
Qed.

Lemma spaced_online_reachable : reachable spaced_online.
Proof. unfold spaced_online. do 3 by_command. apply reach_initial. Qed.

(** ** Facts used by several claims *)

Lemma reply_live (w : World) (sock : Socket) (m : jsstring) :
  is_destroyed sock w = false -> reply w sock m = [line sock m].
Proof. intros H. unfold reply, live. now rewrite H. Qed.

Lemma nth_split_no_sep (sep : N) (k : nat) (s : jsstring) :
  ~ In sep (nth k (split sep s) []).
Proof.
  destruct (Nat.lt_ge_cases k (length (split sep s))) as [H|H].
  - apply (proj1 (Forall_forall _ _) (split_no_sep sep s)). now apply nth_In.
  - rewrite nth_overflow by assumption. auto.
Qed.

Lemma NoDup_sockets_inj (m : list (jsstring * userData))
      (k k' : jsstring) (d d' : userData) :
  NoDup (sockets m) -> In (k, d) m -> In (k', d') m -> socket d = socket d' -> k = k'.
Proof.
  intros ND A B E. apply (In_find_socket _ _ _ ND) in A, B. congruence.
Qed.

Lemma recipients_sockets (ex : option Socket) (w : World) :
  recipients ex w
  = filter (fun s => differs s ex && live w s) (sockets (users w)).
Proof.
  unfold recipients, sockets. induction (users w) as [|e l IH]; simpl; auto.
  destruct (differs (socket (snd e)) ex && live w (socket (snd e))); simpl;
    now rewrite IH.
Qed.

Lemma recipients_touch (now : Z) (sock : Socket) (ex : option Socket) (w : World) :
  Inv w -> recipients ex (updateActivity now sock w) = recipients ex w.
Proof.
  intros I. destruct (updateActivity_frame now sock w I) as [_ [_ [S [D _]]]].
  rewrite !recipients_sockets, S. apply filter_ext. intros s.
  now rewrite (live_destroyed w _ s D).
Qed.

Lemma recipients_all (w : World) (s : Socket) :
  In s (recipients None w) <-> In s (sockets (users w)) /\ is_destroyed s w = false.
Proof.
  rewrite recipients_sockets, filter_In. unfold live. simpl.
  rewrite negb_true_iff. tauto.
Qed.

(** The MSG branch, whole. *)
Lemma msg_emitted (now : Z) (sock : Socket) (data n : jsstring) (w : World) :
  Inv w -> trim data <> [] -> command_of data = lit "MSG" ->
  getUsernameBySocket sock w = Some n ->
  emitted w (handleCommand now sock data w)
  = if nonempty (text_from 1 data)
    then map (fun s => line s (MSG_line n (text_from 1 data))) (recipients None w)
    else reply w sock (lit "ERR empty-message").
Proof.
  intros I T C N.
  destruct (updateActivity_frame now sock w I) as [_ [_ [_ [D [Tr _]]]]].
  rewrite handleCommand_session with (n := n); auto.
  2:{ rewrite C. discriminate. }
  cbv zeta. rewrite C.
  change (streq (lit "MSG") (lit "MSG")) with true. cbv iota.
  destruct (nonempty (text_from 1 data)); simpl negb; cbv iota.
  - apply emitted_app. rewrite broadcastToAll_spec. simpl.
    now rewrite Tr, recipients_touch.
  - now apply emitted_send.
Qed.

(** The WHO branch, whole. *)
Lemma who_emitted (now : Z) (sock : Socket) (data n : jsstring) (w : World) :
  Inv w -> trim data <> [] -> command_of data = lit "WHO" ->
  getUsernameBySocket sock w = Some n ->
  emitted w (handleCommand now sock data w)
  = if live w sock
    then map (fun name => line sock (USER_line name)) (keys (users w)) else [].
Proof.
  intros I T C N.
  destruct (updateActivity_frame now sock w I) as [_ [K [_ [D [Tr _]]]]].
  rewrite handleCommand_session with (n := n); auto.
  2:{ rewrite C. discriminate. }
  cbv zeta. rewrite C.
  change (streq (lit "WHO") (lit "MSG")) with false.
  change (streq (lit "WHO") (lit "WHO")) with true. cbv iota.
  assert (Z : Nat.eqb (length (users (updateActivity now sock w))) 0 = false).
  { apply Nat.eqb_neq.
    rewrite <- (length_map fst). fold (keys (users (updateActivity now sock w))).
    rewrite K. unfold keys. rewrite length_map.
    destruct (find_socket_Some _ _ _ N) as [d [X _]].
    destruct (users w); [contradiction|simpl; lia]. }
  rewrite Z. apply emitted_app. rewrite who_fold. simpl. rewrite Tr.
  rewrite (live_destroyed w _ sock D). f_equal.
  destruct (live w sock); auto.
  rewrite <- K. unfold keys. now rewrite map_map.
Qed.

Lemma remaining_spec (n : jsstring) (w : World) (s : Socket) :
  In s (remaining n w)
  <-> exists m d, In (m, d) (users w) /\ m <> n /\ socket d = s
                  /\ is_destroyed s w = false.
Proof.
  unfold remaining. rewrite recipients_all. simpl.
  unfold sockets, Map_delete. rewrite in_map_iff. split.
  - intros [[[m d] [E I]] D]. apply filter_In in I as [I K]. simpl in *.
    exists m, d. repeat split; auto.
    apply negb_true_iff, streq_neq in K. exact K.
  - intros [m [d [I [K [E D]]]]]. split; auto.
    exists (m, d). split; auto. apply filter_In. split; auto.
    simpl. now apply negb_true_iff, streq_neq.
Qed.

Lemma remaining_NoDup (n : jsstring) (w : World) :
  Inv w -> NoDup (remaining n w).
Proof.
  intros [_ [NS _]]. unfold remaining. rewrite recipients_sockets. simpl.
  apply NoDup_filter. unfold sockets, Map_delete. now apply NoDup_map_filter.
Qed.

Lemma teardown_emitted (sock : Socket) (n : jsstring) (w : World) :
  Inv w -> getUsernameBySocket sock w = Some n ->
  emitted w (handleDisconnect sock w) = teardown_events n sock w.
Proof.
  intros I U. apply emitted_app.
  now rewrite (handleDisconnect_session _ _ _ I U).
Qed.

Lemma teardown_events_shape (n : jsstring) (sock : Socket) (w : World)
      (pre post : list event) (s : Socket) (message : jsstring) :
  teardown_events n sock w = pre ++ EvWrite s message :: post ->
  In (EvDelete n) pre /\ forall s', ~ In (EvSet n s') pre.
Proof.
  unfold teardown_events. intros H. destruct pre as [|e pre]; [discriminate|].
  injection H as <- H. split; [now left|].
  intros s' [X|X]; [discriminate|].
  assert (Y : In (EvSet n s') (pre ++ EvWrite s message :: post))
    by (apply in_or_app; now left).
  rewrite <- H in Y. apply in_app_or in Y as [Y|Y].
  - apply in_map_iff in Y as [x [Y _]]. discriminate.
  - destruct (live w sock); simpl in Y; intuition discriminate.
Qed.

(** The turn of a selected session in the second loop: when it comes the
    session is still in the registry; [sendToSocket] is applied, then
    [handleDisconnect]. *)
Lemma sweep_turn (now : Z) (w : World) (n : jsstring) (s : Socket) :
  Inv w -> In (n, s) (usersToDisconnect now w) ->
  exists l1 l2,
    usersToDisconnect now w = l1 ++ (n, s) :: l2 /\
    getUsernameBySocket s (fold_left evict l1 w) = Some n /\
    fold_left evict (l1 ++ [(n, s)]) w
    = handleDisconnect s (sendToSocket s INFO_inactivity (fold_left evict l1 w)).
Proof.
  intros I X. destruct (in_split _ _ X) as [l1 [l2 E]]. exists l1, l2.
  split; [exact E|].
  assert (ND : NoDup (map fst (usersToDisconnect now w))).
  { rewrite usersToDisconnect_names. apply NoDup_map_filter, I. }
  pose proof (usersToDisconnect_held now w) as H.
  rewrite E in ND, H. rewrite map_app in ND. simpl in ND.
  apply Forall_app in H as [H1 H2]. inversion H2 as [|? ? Hh _]; subst.
  assert (NI : ~ In n (map fst l1)).
  { intros Y. apply (NoDup_remove_2 _ _ _ ND). apply in_or_app. now left. }
  destruct (sweep_fold l1 w I (NoDup_app_remove_r _ _ ND) H1) as [I1 [U _]].
  split.
  - apply held_find; auto. destruct Hh as [d [Hd Hs]]. exists d. split; auto.
    rewrite U. apply filter_In. split; auto. simpl.
    apply negb_true_iff. destruct (existsb (streq n) (map fst l1)) eqn:B; auto.
    apply existsb_exists in B as [k [K S]]. apply streq_eq in S. now subst.
  - now rewrite fold_left_app.
Qed.

Lemma usersToDisconnect_spec (now : Z) (w : World) (n : jsstring) (s : Socket) :
  In (n, s) (usersToDisconnect now w)
  <-> exists d, In (n, d) (users w) /\ socket d = s /\
                (now - lastActivity d > IDLE_TIMEOUT)%Z /\ disconnecting d = false.
Proof.
  unfold usersToDisconnect. rewrite in_map_iff. split.
  - intros [[k d] [E I]]. apply filter_In in I as [I X]. simpl in *.
    injection E as <- <-. apply idle_iff in X. exists d. tauto.
  - intros [d [I [E X]]]. exists (n, d). simpl. split; [now rewrite E|].
    apply filter_In. split; auto. now apply idle_iff.
Qed.

(** ** The claims *)

(** C1, as the code has it.  In every reachable world the names of the
    registry are distinct.  A LOGIN arrives on a connection that is not
    destroyed, for a name that a session holds: the registry keeps its names,
    and the only write is ERR username-taken when the connection has no
    session, ERR already-logged-in when it has one.  A LOGIN that is
    answered OK took a name that no session held, on a connection without a
    session, and added that one session. *)
Theorem C1_login_name_unique (now : Z) (sock : Socket) (data : jsstring) (w : World) :
  reachable w ->
  is_destroyed sock w = false ->
  trim data <> [] ->
  command_of data = lit "LOGIN" ->
  let n := text_from 1 data in
  let w' := handleCommand now sock data w in
  NoDup (keys (users w)) /\
  (In n (keys (users w)) ->
   keys (users w') = keys (users w) /\
   (getUsernameBySocket sock w = None ->
    emitted w w' = [line sock (lit "ERR username-taken")]) /\
   (getUsernameBySocket sock w <> None ->
    emitted w w' = [line sock (lit "ERR already-logged-in")])) /\
  (In (line sock (lit "OK")) (emitted w w') ->
   ~ In n (keys (users w)) /\
   getUsernameBySocket sock w = None /\
   users w' = users w ++ [(n, mkUser sock now false)]).
Proof.
  intros R L T C n w'. apply reachable_Inv in R.
  split; [apply R|].
  destruct (getUsernameBySocket sock w) as [u|] eqn:U.
  - assert (E : emitted w w' = [line sock (lit "ERR already-logged-in")]).
    { unfold w'. rewrite (handleCommand_relogin _ _ _ _ _ R T C U).
      destruct (updateActivity_frame now sock w R) as [_ [_ [_ [D [Tr _]]]]].
      rewrite emitted_send by assumption. now apply reply_live. }
    split.
    + intros _. split; [|split; [discriminate|auto]].
      destruct (handleCommand_session_frame now sock data u w R T U) as [A _].
      fold w' in A. rewrite A. apply updateActivity_frame, R.
    + rewrite E. intros [H|[]]. discriminate.
  - unfold w'. rewrite (handleCommand_login _ _ _ _ T C U). cbv zeta. fold n.
    destruct (nonempty n) eqn:NE; simpl negb; cbv iota.
    + destruct (Map_has n (users w)) eqn:H.
      * rewrite emitted_send by reflexivity. rewrite reply_live by assumption.
        split.
        -- intros _. autorewrite with frame. split; [reflexivity|].
           split; [reflexivity|congruence].
        -- intros [X|[]]. discriminate.
      * apply Map_has_false in H. split; [contradiction|].
        intros _. split; [exact H|]. split; [reflexivity|].
        autorewrite with frame. simpl. now apply Map_set_new.
    + rewrite emitted_send by reflexivity. rewrite reply_live by assumption.
      split.
      * intros I. destruct (Inv_key w n R I). congruence.
      * intros [X|[]]. discriminate.
Qed.

Lemma C1_login_name_unique_witness :
  reachable alice_online /\
  is_destroyed 2 alice_online = false /\
  trim (lit "LOGIN alice") <> [] /\
  command_of (lit "LOGIN alice") = lit "LOGIN" /\
  emitted alice_online (handleCommand 4 2 (lit "LOGIN alice") alice_online)
  = [line 2 (lit "ERR username-taken")].
Proof.
  assert (T : trim (lit "LOGIN alice") <> []) by (vm_compute; discriminate).
  refine (conj alice_online_reachable (conj eq_refl (conj T (conj eq_refl _)))).
  destruct (C1_login_name_unique 4 2 (lit "LOGIN alice") alice_online
              alice_online_reachable eq_refl T eq_refl) as [_ [H _]].
  destruct H as [_ [H _]]; [vm_compute; auto|].
  apply H. reflexivity.
Defined.

(** C1, as it is stated, fails.  alice holds her name on socket 1 and the
    same connection sends LOGIN alice again, before any teardown: the answer
    is ERR already-logged-in, not ERR username-taken. *)
Lemma C1_counterexample :
  reachable alice_online /\
  In alice (keys (users alice_online)) /\
  command_of (lit "LOGIN alice") = lit "LOGIN" /\
  text_from 1 (lit "LOGIN alice") = alice /\
  emitted alice_online (handleCommand 4 1 (lit "LOGIN alice") alice_online)
  = [line 1 (lit "ERR already-logged-in")] /\
  emitted alice_online (handleCommand 4 1 (lit "LOGIN alice") alice_online)
  <> [line 1 (lit "ERR username-taken")].
Proof.
  split; [apply alice_online_reachable|]. split; [vm_compute; auto|].
  split; [reflexivity|]. split; [reflexivity|]. split; [reflexivity|].
  vm_compute. discriminate.
Qed.

(** C2.  The disconnect handler runs for the connection of the session
    [n], once or several times.  Runs in a row give the result of the first
    run, and a later run, after any number of other events, changes nothing
    either.  The first run appends the deletion of [n], then one line
    INFO <n> disconnected for each remaining session whose socket is not
    destroyed (each such socket once, the departing one never), then one
    destroy of the connection unless it was destroyed already; after it the
    connection is destroyed, and it has been destroyed exactly once. *)
Theorem C2_teardown_idempotent (sock : Socket) (n : jsstring) (w : World) (k : nat) :
  reachable w ->
  getUsernameBySocket sock w = Some n ->
  let w1 := handleDisconnect sock w in
  Nat.iter (S k) (handleDisconnect sock) w = w1 /\
  (forall w2, steps w1 w2 -> handleDisconnect sock w2 = w2) /\
  emitted w w1
  = EvDelete n
    :: map (fun s => line s (INFO_disconnected n)) (remaining n w)
    ++ (if is_destroyed sock w then [] else [EvDestroy sock]) /\
  NoDup (remaining n w) /\
  ~ In sock (remaining n w) /\
  (forall s, In s (remaining n w)
             <-> exists m d, In (m, d) (users w) /\ m <> n /\ socket d = s
                             /\ is_destroyed s w = false) /\
  is_destroyed sock w1 = true /\
  count_occ Nat.eq_dec (destroyed w1) sock = 1.
Proof.
  intros R U w1. pose proof (reachable_destroyed w R) as F.
  apply reachable_Inv in R.
  split; [now apply handleDisconnect_iter|].
  split.
  { intros w2 S. apply handleDisconnect_closed.
    apply (steps_closed sock w1 w2 S).
    - now apply handleDisconnect_Inv.
    - destruct (handleDisconnect_done sock w R). now split. }
  split.
  { unfold w1. rewrite (teardown_emitted _ _ _ R U).
    unfold teardown_events, live. now destruct (is_destroyed sock w). }
  split; [now apply remaining_NoDup|].
  split.
  { intros H. apply remaining_spec in H as [m [d [I [K [E _]]]]].
    apply K. destruct (find_socket_Some _ _ _ U) as [d' [I' E']].
    apply (NoDup_sockets_inj (users w) m n d d'); auto; [apply R|congruence]. }
  split; [apply remaining_spec|].
  assert (D : is_destroyed sock w1 = true) by apply handleDisconnect_done, R.
  split; [exact D|].
  apply NoDup_count_occ'; [|now apply is_destroyed_In].
  unfold w1. rewrite handleDisconnect_destroyed by assumption.
  now apply NoDup_flag.
Qed.

Lemma C2_teardown_idempotent_witness :
  reachable both_online /\
  getUsernameBySocket 1 both_online = Some alice /\
  Nat.iter 3 (handleDisconnect 1) both_online = handleDisconnect 1 both_online /\
  emitted both_online (Nat.iter 3 (handleDisconnect 1) both_online)
  = [EvDelete alice; line 2 (lit "INFO alice disconnected"); EvDestroy 1].
Proof.
  refine (conj both_online_reachable (conj eq_refl _)).
  destruct (C2_teardown_idempotent 1 alice both_online 2
              both_online_reachable eq_refl) as [H [_ [E _]]].
  split; [exact H|]. rewrite H, E. reflexivity.
Defined.

(** C3.  The disconnect handler runs for the connection of the session
    [n].  The registry afterwards is the registry without [n].  What the
    handler appends to the trace is, in this order: the deletion of [n];
    one line INFO <n> disconnected to each remaining session whose socket is
    not destroyed, and to those only; one destroy of the connection unless it
    was destroyed already.  So every write comes after the deletion of [n],
    and [n] is not set again before the write: the notification is written,
    and never while [n] is a key.  When the handler returns [n] is no key of
    the registry, and the line LOGIN <n> from a connection that has no
    session and is not destroyed is answered OK and registers [n]. *)
Theorem C3_removed_before_broadcast (sock : Socket) (n : jsstring) (w : World) :
  reachable w ->
  getUsernameBySocket sock w = Some n ->
  let w1 := handleDisconnect sock w in
  users w1 = Map_delete n (users w) /\
  emitted w w1
  = EvDelete n
    :: map (fun s => line s (INFO_disconnected n)) (remaining n w)
    ++ (if is_destroyed sock w then [] else [EvDestroy sock]) /\
  (forall s, In s (remaining n w)
             <-> exists m d, In (m, d) (users w) /\ m <> n /\ socket d = s
                             /\ is_destroyed s w = false) /\
  (forall pre s message post,
     emitted w w1 = pre ++ EvWrite s message :: post ->
     In (EvDelete n) pre /\ forall s', ~ In (EvSet n s') pre) /\
  ~ In n (keys (users w1)) /\
  (forall now sock',
     getUsernameBySocket sock' w1 = None -> is_destroyed sock' w1 = false ->
     handleCommand now sock' (lit "LOGIN " ++ n) w1
     = mkWorld (users w1 ++ [(n, mkUser sock' now false)]) (destroyed w1)
               (trace w1 ++ [EvSet n sock'; line sock' (lit "OK")])).
Proof.
  intros R U w1. apply reachable_Inv in R.
  assert (E : users w1 = Map_delete n (users w)).
  { unfold w1. now rewrite (handleDisconnect_session _ _ _ R U). }
  assert (K : ~ In n (keys (users w1))).
  { rewrite E. apply Map_delete_not_in. }
  split; [exact E|]. split; [|split; [apply remaining_spec|]].
  { unfold w1. rewrite (teardown_emitted _ _ _ R U).
    unfold teardown_events, live. now destruct (is_destroyed sock w). }
  split; [|split; [exact K|]].
  - intros pre s message post H. unfold w1 in H.
    rewrite (teardown_emitted _ _ _ R U) in H.
    exact (teardown_events_shape _ _ _ _ _ _ _ H).
  - intros now sock' N L.
    destruct (find_socket_Some _ _ _ U) as [d [I _]].
    apply (in_map fst) in I. destruct (Inv_key w n R I) as [A B].
    now apply login_succeeds.
Qed.

Lemma C3_removed_before_broadcast_witness :
  reachable both_online /\
  getUsernameBySocket 1 both_online = Some alice /\
  emitted both_online (handleDisconnect 1 both_online)
  = [EvDelete alice; line 2 (lit "INFO alice disconnected"); EvDestroy 1] /\
  emitted (handleDisconnect 1 both_online)
          (handleCommand 9 3 (lit "LOGIN alice") (handleDisconnect 1 both_online))
  = [EvSet alice 3; line 3 (lit "OK")].
Proof.
  refine (conj both_online_reachable (conj eq_refl _)).
  destruct (C3_removed_before_broadcast 1 alice both_online
              both_online_reachable eq_refl) as [_ [E [_ [_ [_ H]]]]].
  split; [rewrite E; reflexivity|].
  change (lit "LOGIN alice") with (lit "LOGIN " ++ alice).
  rewrite (H 9%Z 3 eq_refl eq_refl). reflexivity.
Defined.

(** C4.  One cycle of the idle sweep at time [now].  The sessions selected
    are exactly those of the registry with [now - lastActivity] greater than
    the threshold and [disconnecting] false, and the selection is a function
    of the world at the start of the cycle: the evictions run over that
    list.  The registry afterwards keeps exactly the sessions that were not
    selected.  For each selected session: when its turn comes it is still in
    the registry, and [sendToSocket] with INFO disconnected-due-to-inactivity
    is applied to its socket, then [handleDisconnect]; its name is no key
    afterwards and its socket is destroyed; when its socket was not destroyed
    at the start, the line is written to it before its name is deleted; and
    afterwards the line LOGIN <name> from a connection that has no session
    and is not destroyed is answered OK.  Only selected sessions are deleted
    or destroyed in the cycle. *)
Theorem C4_idle_sweep (now : Z) (w : World) :
  reachable w ->
  let selected := usersToDisconnect now w in
  let w' := checkIdleUsers now w in
  (forall n s, In (n, s) selected
     <-> exists d, In (n, d) (users w) /\ socket d = s /\
                   (now - lastActivity d > IDLE_TIMEOUT)%Z /\ disconnecting d = false) /\
  w' = fold_left evict selected w /\
  users w' = filter (fun e => negb (idle now (snd e))) (users w) /\
  (forall n s, In (n, s) selected ->
     (exists l1 l2,
        selected = l1 ++ (n, s) :: l2 /\
        getUsernameBySocket s (fold_left evict l1 w) = Some n /\
        fold_left evict (l1 ++ [(n, s)]) w
        = handleDisconnect s (sendToSocket s INFO_inactivity (fold_left evict l1 w))) /\
     ~ In n (keys (users w')) /\
     is_destroyed s w' = true /\
     (is_destroyed s w = false ->
      exists pre mid post,
        emitted w w' = pre ++ line s INFO_inactivity :: mid ++ EvDelete n :: post /\
        ~ In (EvDelete n) pre) /\
     (forall now' sock',
        getUsernameBySocket sock' w' = None -> is_destroyed sock' w' = false ->
        handleCommand now' sock' (lit "LOGIN " ++ n) w'
        = mkWorld (users w' ++ [(n, mkUser sock' now' false)]) (destroyed w')
                  (trace w' ++ [EvSet n sock'; line sock' (lit "OK")]))) /\
  (forall n, In (EvDelete n) (emitted w w') -> In n (map fst selected)) /\
  (forall s, In (EvDestroy s) (emitted w w') -> In s (map snd selected)).
Proof.
  intros R selected w'. apply reachable_Inv in R.
  destruct (checkIdleUsers_spec now w R) as [I' [U [D [ev [T [P1 [P2 P3]]]]]]].
  fold w' in I', U, D, T. fold selected in D, P1, P2, P3.
  assert (E : emitted w w' = ev) by now apply emitted_app.
  split; [apply usersToDisconnect_spec|]. split; [reflexivity|].
  split; [exact U|]. rewrite E. split; [|split; assumption].
  intros n s X.
  assert (K : ~ In n (keys (users w'))).
  { rewrite U. intros Y. apply in_map_iff in Y as [[k d] [Y1 Y2]].
    apply filter_In in Y2 as [Y2 Y3]. simpl in *. subst k.
    apply usersToDisconnect_spec in X as [d' [X1 [X2 X3]]].
    rewrite (NoDup_keys_inj _ _ _ _ (proj1 R) Y2 X1) in Y3.
    apply idle_iff in X3. rewrite X3 in Y3. discriminate. }
  split; [now apply sweep_turn|].
  split; [exact K|]. split; [|split].
  - rewrite D. apply orb_true_iff. right. apply existsb_exists. exists s.
    split; [|apply Nat.eqb_refl]. apply (in_map snd) in X. exact X.
  - now apply P1.
  - intros now' sock' N L.
    apply usersToDisconnect_spec in X as [d [X _]].
    apply (in_map fst) in X. destruct (Inv_key w n R X) as [A B].
    now apply login_succeeds.
Qed.

(** alice was last active at 0 and bob at 5; the sweep runs at 60003. *)
Lemma C4_idle_sweep_witness :
  reachable both_online /\
  usersToDisconnect 60003 both_online = [(alice, 1)] /\
  keys (users (checkIdleUsers 60003 both_online)) = [bob] /\
  emitted both_online (checkIdleUsers 60003 both_online)
  = [line 1 INFO_inactivity; EvDelete alice;
     line 2 (lit "INFO alice disconnected"); EvDestroy 1].
Proof.
  refine (conj both_online_reachable (conj eq_refl _)).
  destruct (C4_idle_sweep 60003 both_online both_online_reachable)
    as [_ [_ [U _]]].
  split; [rewrite U; reflexivity|reflexivity].
Defined.

(** C5.  A DM command arrives from a logged-in sender whose connection is
    not destroyed.  With fewer than two arguments after the command word
    the only write is ERR invalid-dm-format to the sender.  Otherwise, when
    the target name is not registered or its socket is destroyed, the only
    write is ERR user-not-found to the sender; and when the target is
    registered on a live socket, that socket gets DM <sender> <text> and then
    the sender gets DM-SENT <target>, as two writes.  The registry is as
    [updateActivity] left it and no socket flag changes. *)
Theorem C5_dm_outcomes (now : Z) (sock : Socket) (data sender : jsstring) (w : World) :
  reachable w ->
  is_destroyed sock w = false ->
  trim data <> [] ->
  command_of data = lit "DM" ->
  getUsernameBySocket sock w = Some sender ->
  let w' := handleCommand now sock data w in
  let targetUsername := nth 1 (parts_of data) [] in
  users w' = users (updateActivity now sock w) /\
  destroyed w' = destroyed w /\
  (length (parts_of data) - 1 < 2 ->
   emitted w w' = [line sock (lit "ERR invalid-dm-format")]) /\
  (2 <= length (parts_of data) - 1 ->
   match Map_get targetUsername (users w) with
   | None => emitted w w' = [line sock (lit "ERR user-not-found")]
   | Some targetData =>
       if is_destroyed (socket targetData) w
       then emitted w w' = [line sock (lit "ERR user-not-found")]
       else emitted w w'
            = [line (socket targetData) (DM_line sender (text_from 2 data));
               line sock (DM_SENT_line targetUsername)]
   end).
Proof.
  intros R L T C U w' target. apply reachable_Inv in R.
  destruct (handleCommand_session_frame now sock data sender w R T U) as [A B].
  split; [exact A|split; [exact B|]].
  unfold w'. rewrite (dm_emitted now sock data sender w R T C U).
  split.
  - intros H. assert (X : Nat.ltb (length (parts_of data)) 3 = true)
      by (apply Nat.ltb_lt; lia).
    rewrite X. now apply reply_live.
  - intros H. assert (X : Nat.ltb (length (parts_of data)) 3 = false)
      by (apply Nat.ltb_ge; lia).
    rewrite X. fold target.
    destruct (Map_get target (users w)) as [d|]; [|now apply reply_live].
    destruct (is_destroyed (socket d) w); [now apply reply_live|].
    now rewrite reply_live.
Qed.

Lemma C5_dm_outcomes_witness :
  reachable both_online /\
  is_destroyed 2 both_online = false /\
  trim (lit "DM alice see you ") <> [] /\
  command_of (lit "DM alice see you ") = lit "DM" /\
  getUsernameBySocket 2 both_online = Some bob /\
  emitted both_online (handleCommand 9 2 (lit "DM alice see you ") both_online)
  = [line 1 (lit "DM bob see you"); line 2 (lit "DM-SENT alice")].
Proof.
  assert (T : trim (lit "DM alice see you ") <> []) by (vm_compute; discriminate).
  refine (conj both_online_reachable (conj eq_refl (conj T (conj eq_refl (conj eq_refl _))))).
  destruct (C5_dm_outcomes 9 2 (lit "DM alice see you ") bob both_online
              both_online_reachable eq_refl T eq_refl eq_refl) as [_ [_ [_ H]]].
  apply H. vm_compute. lia.
Defined.

(** C6, as the code has it.  A MSG command arrives from a logged-in sender
    whose connection is not destroyed.  When the text is not empty the
    writes are exactly one line MSG <sender> <text> to each registered
    connection that is not destroyed, in registry order, the sender's own
    among them.  When the text is empty after trimming the only write is
    ERR empty-message to the sender. *)
Theorem C6_msg_broadcast (now : Z) (sock : Socket) (data sender : jsstring) (w : World) :
  reachable w ->
  is_destroyed sock w = false ->
  trim data <> [] ->
  command_of data = lit "MSG" ->
  getUsernameBySocket sock w = Some sender ->
  let text := text_from 1 data in
  let ev := emitted w (handleCommand now sock data w) in
  (text <> [] ->
   ev = map (fun s => line s (MSG_line sender text)) (recipients None w) /\
   NoDup (recipients None w) /\
   (forall s, In s (recipients None w)
              <-> In s (sockets (users w)) /\ is_destroyed s w = false) /\
   In sock (recipients None w)) /\
  (text = [] -> ev = [line sock (lit "ERR empty-message")]).
Proof.
  intros R L T C U text ev. apply reachable_Inv in R.
  unfold ev. rewrite (msg_emitted now sock data sender w R T C U). fold text.
  split.
  - intros NE. apply nonempty_true in NE. rewrite NE.
    split; [reflexivity|]. split; [|split].
    + rewrite recipients_sockets. apply NoDup_filter, R.
    + apply recipients_all.
    + apply recipients_all. split; auto.
      destruct (find_socket_Some _ _ _ U) as [d [I S]].
      apply (in_map (fun e => socket (snd e))) in I. simpl in I. now rewrite S in I.
  - intros E. apply nonempty_false in E. rewrite E. now apply reply_live.
Qed.

Lemma C6_msg_broadcast_witness :
  reachable both_online /\
  is_destroyed 1 both_online = false /\
  trim (lit "MSG hi") <> [] /\
  command_of (lit "MSG hi") = lit "MSG" /\
  getUsernameBySocket 1 both_online = Some alice /\
  emitted both_online (handleCommand 9 1 (lit "MSG hi") both_online)
  = [line 1 (lit "MSG alice hi"); line 2 (lit "MSG alice hi")].
Proof.
  assert (T : trim (lit "MSG hi") <> []) by (vm_compute; discriminate).
  refine (conj both_online_reachable (conj eq_refl (conj T (conj eq_refl (conj eq_refl _))))).
  destruct (C6_msg_broadcast 9 1 (lit "MSG hi") alice both_online
              both_online_reachable eq_refl T eq_refl eq_refl) as [H _].
  destruct H as [H _]; [vm_compute; discriminate|].
  rewrite H. reflexivity.
Defined.

(** C6, as it is stated, fails.  bob is registered on socket 2, which the
    runtime has destroyed and whose listeners have not run yet.  alice sends
    [MSG hi]: her own connection gets the line, bob's registered connection
    gets nothing. *)
Lemma C6_counterexample :
  reachable bob_lost /\
  In (bob, mkUser 2 5 false) (users bob_lost) /\
  getUsernameBySocket 1 bob_lost = Some alice /\
  emitted bob_lost (handleCommand 9 1 (lit "MSG hi") bob_lost)
  = [line 1 (lit "MSG alice hi")] /\
  ~ In (line 2 (lit "MSG alice hi"))
       (emitted bob_lost (handleCommand 9 1 (lit "MSG hi") bob_lost)).
Proof.
  split; [apply bob_lost_reachable|]. split; [vm_compute; auto|].
  split; [reflexivity|]. split; [reflexivity|].
  vm_compute. intros [H|[]]. discriminate.
Qed.

(** C7, as the code has it.  A WHO command arrives on a connection that is
    not destroyed.  When the registry holds no session, and whenever the
    connection has no session, the only write is ERR not-logged-in.  When
    the connection has a session, the writes are exactly one line
    USER <name> per session of the registry, in registry order, all to the
    requester; the names are distinct and the requester's own is among
    them.  INFO no-users-online is never written. *)
Theorem C7_who (now : Z) (sock : Socket) (data : jsstring) (w : World) :
  reachable w ->
  is_destroyed sock w = false ->
  trim data <> [] ->
  command_of data = lit "WHO" ->
  let ev := emitted w (handleCommand now sock data w) in
  (users w = [] -> ev = [line sock (lit "ERR not-logged-in")]) /\
  (getUsernameBySocket sock w = None -> ev = [line sock (lit "ERR not-logged-in")]) /\
  (forall n, getUsernameBySocket sock w = Some n ->
     ev = map (fun name => line sock (USER_line name)) (keys (users w)) /\
     NoDup (keys (users w)) /\ In n (keys (users w))) /\
  ~ In (line sock (lit "INFO no-users-online")) ev.
Proof.
  intros R L T C ev. apply reachable_Inv in R.
  assert (A : getUsernameBySocket sock w = None ->
              ev = [line sock (lit "ERR not-logged-in")]).
  { intros U. unfold ev. rewrite handleCommand_not_logged_in; auto.
    - rewrite emitted_send by reflexivity. now apply reply_live.
    - rewrite C. discriminate. }
  assert (B : forall n, getUsernameBySocket sock w = Some n ->
              ev = map (fun name => line sock (USER_line name)) (keys (users w))).
  { intros n U. unfold ev. rewrite (who_emitted now sock data n w R T C U).
    unfold live. now rewrite L. }
  split; [|split; [exact A|split]].
  - intros E. apply A. unfold getUsernameBySocket. now rewrite E.
  - intros n U. split; [now apply (B n)|]. split; [apply R|].
    destruct (find_socket_Some _ _ _ U) as [d [I _]].
    apply (in_map fst) in I. exact I.
  - destruct (getUsernameBySocket sock w) as [n|] eqn:U.
    + rewrite (B n eq_refl). intros H. apply in_map_iff in H as [k [H _]].
      discriminate.
    + rewrite (A eq_refl). intros [H|[]]. discriminate.
Qed.

Lemma C7_who_witness :
  reachable both_online /\
  is_destroyed 2 both_online = false /\
  trim (lit "who") <> [] /\
  command_of (lit "who") = lit "WHO" /\
  emitted both_online (handleCommand 9 2 (lit "who") both_online)
  = [line 2 (lit "USER alice"); line 2 (lit "USER bob")].
Proof.
  assert (T : trim (lit "who") <> []) by (vm_compute; discriminate).
  refine (conj both_online_reachable (conj eq_refl (conj T (conj eq_refl _)))).
  destruct (C7_who 9 2 (lit "who") both_online
              both_online_reachable eq_refl T eq_refl) as [_ [_ [H _]]].
  destruct (H bob eq_refl) as [E _]. rewrite E. reflexivity.
Defined.

(** C7, as it is stated, fails.  The registry holds no session and a WHO
    arrives: the reply is ERR not-logged-in, not INFO no-users-online. *)
Lemma C7_counterexample :
  users initial = [] /\
  command_of (lit "WHO") = lit "WHO" /\
  emitted initial (handleCommand 0 1 (lit "WHO") initial)
  = [line 1 (lit "ERR not-logged-in")] /\
  emitted initial (handleCommand 0 1 (lit "WHO") initial)
  <> [line 1 (lit "INFO no-users-online")].
Proof.
  split; [reflexivity|]. split; [reflexivity|]. split; [reflexivity|].
  vm_compute. discriminate.
Qed.

(** C8.  A line that is not blank arrives on a connection that has no
    session and is not destroyed; its command word, upper-cased, is not
    LOGIN.  Then the server writes exactly the line ERR not-logged-in to that
    connection, and the registry and the socket flags stay as they were. *)
Theorem C8_not_logged_in (now : Z) (sock : Socket) (data : jsstring) (w : World) :
  trim data <> [] ->
  getUsernameBySocket sock w = None ->
  command_of data <> lit "LOGIN" ->
  is_destroyed sock w = false ->
  handleCommand now sock data w
  = mkWorld (users w) (destroyed w)
            (trace w ++ [line sock (lit "ERR not-logged-in")]).
Proof.
  intros T N C L. rewrite handleCommand_not_logged_in by assumption.
  now apply sendToSocket_live.
Qed.

Lemma C8_not_logged_in_witness :
  trim (lit "msg hello") <> [] /\
  getUsernameBySocket 7 alice_online = None /\
  command_of (lit "msg hello") <> lit "LOGIN" /\
  is_destroyed 7 alice_online = false /\
  handleCommand 3 7 (lit "msg hello") alice_online
  = mkWorld (users alice_online) (destroyed alice_online)
            (trace alice_online ++ [line 7 (lit "ERR not-logged-in")]).
Proof.
  assert (T : trim (lit "msg hello") <> []) by (vm_compute; discriminate).
  assert (C : command_of (lit "msg hello") <> lit "LOGIN") by (vm_compute; discriminate).
  refine (conj T (conj eq_refl (conj C (conj eq_refl _)))).
  exact (C8_not_logged_in 3 7 (lit "msg hello") alice_online T eq_refl C eq_refl).
Defined.

(** C9, as the code has it.  A registered username holds a space.  The
    target of every DM command is one token of the split line and holds no
    space, so it is never that username: no DM command writes a line
    DM <from> <text> to that user's connection, and a DM command sent by
    someone else writes nothing at all to it.  With fewer than two arguments
    the sender gets ERR invalid-dm-format.  Otherwise the sender gets
    ERR user-not-found when the target token is no registered name, or is
    the name of a session whose socket is destroyed; and when the token is
    the name of a session on a live socket, which is then another session
    on another socket, that socket gets DM <sender> <text> and the sender is
    answered DM-SENT <token>. *)
Theorem C9_spaced_name_never_target
        (now : Z) (sock : Socket) (data sender u : jsstring) (d : userData) (w : World) :
  reachable w ->
  trim data <> [] ->
  command_of data = lit "DM" ->
  getUsernameBySocket sock w = Some sender ->
  In (u, d) (users w) ->
  In SPACE u ->
  let ev := emitted w (handleCommand now sock data w) in
  let targetUsername := nth 1 (parts_of data) [] in
  targetUsername <> u /\
  (forall from text, ~ In (line (socket d) (DM_line from text)) ev) /\
  (socket d <> sock -> forall message, ~ In (EvWrite (socket d) message) ev) /\
  (2 <= length (parts_of data) - 1 ->
   Map_get targetUsername (users w) = None ->
   ev = reply w sock (lit "ERR user-not-found")) /\
  (forall targetData,
     2 <= length (parts_of data) - 1 ->
     Map_get targetUsername (users w) = Some targetData ->
     socket targetData <> socket d /\
     (is_destroyed (socket targetData) w = true ->
      ev = reply w sock (lit "ERR user-not-found")) /\
     (is_destroyed (socket targetData) w = false ->
      ev = line (socket targetData) (DM_line sender (text_from 2 data))
           :: reply w sock (DM_SENT_line targetUsername))) /\
  (length (parts_of data) - 1 < 2 ->
   ev = reply w sock (lit "ERR invalid-dm-format")).
Proof.
  intros R T C U I S ev target. apply reachable_Inv in R.
  assert (NE : target <> u).
  { intros E. apply (nth_split_no_sep SPACE 1 (trim data)).
    fold (parts_of data). fold target. now rewrite E. }
  assert (K : forall dt, Map_get target (users w) = Some dt -> socket dt <> socket d).
  { intros dt G E. apply NE. apply Map_get_In in G.
    apply (NoDup_sockets_inj (users w) target u dt d); auto. apply R. }
  unfold ev. rewrite (dm_emitted now sock data sender w R T C U). fold target.
  split; [exact NE|]. split; [|split; [|split; [|split]]].
  - intros from text. unfold reply, line.
    destruct (Nat.ltb (length (parts_of data)) 3).
    { destruct (live w sock); simpl; intros H; intuition discriminate. }
    destruct (Map_get target (users w)) as [dt|] eqn:G.
    2:{ destruct (live w sock); simpl; intros H; intuition discriminate. }
    destruct (is_destroyed (socket dt) w).
    { destruct (live w sock); simpl; intros H; intuition discriminate. }
    specialize (K dt eq_refl).
    destruct (live w sock); simpl; intros [H|H];
      try (injection H as H1 H2; congruence);
      try (destruct H as [H|[]]; discriminate); auto.
  - intros NS message. unfold reply, line.
    destruct (Nat.ltb (length (parts_of data)) 3).
    { destruct (live w sock); simpl; intros H; intuition congruence. }
    destruct (Map_get target (users w)) as [dt|] eqn:G.
    2:{ destruct (live w sock); simpl; intros H; intuition congruence. }
    destruct (is_destroyed (socket dt) w).
    { destruct (live w sock); simpl; intros H; intuition congruence. }
    specialize (K dt eq_refl).
    destruct (live w sock); simpl; intros H; intuition congruence.
  - intros L G. assert (X : Nat.ltb (length (parts_of data)) 3 = false)
      by (apply Nat.ltb_ge; lia).
    now rewrite X, G.
  - intros dt L G. assert (X : Nat.ltb (length (parts_of data)) 3 = false)
      by (apply Nat.ltb_ge; lia).
    rewrite X, G. split; [now apply K|]. split; intros D; now rewrite D.
  - intros L. assert (X : Nat.ltb (length (parts_of data)) 3 = true)
      by (apply Nat.ltb_lt; lia).
    now rewrite X.
Qed.

(** The line [DM a b hi] from [c]: nothing reaches [a b] on socket 2; the
    token [a] is the name of the session on socket 1, which gets the text
    [b hi], and [c] is answered DM-SENT a. *)
Lemma C9_spaced_name_never_target_witness :
  reachable spaced_online /\
  trim (lit "DM a b hi") <> [] /\
  command_of (lit "DM a b hi") = lit "DM" /\
  getUsernameBySocket 3 spaced_online = Some (lit "c") /\
  In (lit "a b", mkUser 2 1 false) (users spaced_online) /\
  In SPACE (lit "a b") /\
  (forall message,
     ~ In (EvWrite 2 message)
          (emitted spaced_online (handleCommand 9 3 (lit "DM a b hi") spaced_online))) /\
  emitted spaced_online (handleCommand 9 3 (lit "DM a b hi") spaced_online)
  = [line 1 (lit "DM c b hi"); line 3 (lit "DM-SENT a")].
Proof.
  assert (T : trim (lit "DM a b hi") <> []) by (vm_compute; discriminate).
  assert (I : In (lit "a b", mkUser 2 1 false) (users spaced_online))
    by (vm_compute; auto).
  assert (S : In SPACE (lit "a b")) by (vm_compute; auto).
  refine (conj spaced_online_reachable
            (conj T (conj eq_refl (conj eq_refl (conj I (conj S _)))))).
  destruct (C9_spaced_name_never_target 9 3 (lit "DM a b hi") (lit "c") (lit "a b")
              (mkUser 2 1 false) spaced_online
              spaced_online_reachable T eq_refl eq_refl I S)
    as [_ [_ [H [_ [G _]]]]].
  split; [apply H; discriminate|].
  destruct (G (mkUser 1 0 false)) as [_ [_ E]];
    [vm_compute; lia|reflexivity|].
  rewrite (E eq_refl). reflexivity.
Defined.

(** C9, as it is stated, fails.  With the sessions [a], [a b] and [c], the
    line [DM a b hi] from [c] addresses the user [a b]; the sender gets no
    error: the text [b hi] goes to [a] and the sender gets DM-SENT a. *)
Lemma C9_counterexample :
  reachable spaced_online /\
  In (lit "a b") (keys (users spaced_online)) /\
  In SPACE (lit "a b") /\
  getUsernameBySocket 3 spaced_online = Some (lit "c") /\
  emitted spaced_online (handleCommand 9 3 (lit "DM a b hi") spaced_online)
  = [line 1 (lit "DM c b hi"); line 3 (lit "DM-SENT a")] /\
  ~ (exists reason,
        In (line 3 (lit "ERR " ++ reason))
           (emitted spaced_online (handleCommand 9 3 (lit "DM a b hi") spaced_online))).
Proof.
  split; [apply spaced_online_reachable|].
  split; [vm_compute; auto|]. split; [vm_compute; auto|].
  split; [reflexivity|]. split; [reflexivity|].
  intros [reason H]. vm_compute in H. destruct H as [H|[H|[]]]; discriminate.
Qed.

(** C10.  For a DM command, when the trimmed line has three tokens or more
    its last token is not empty and the text, joined and trimmed, is not
    empty; so no DM command makes the server write ERR empty-message, to
    any connection. *)
Theorem C10_dm_never_empty_message (now : Z) (sock : Socket) (data : jsstring) (w : World) :
  reachable w ->
  command_of data = lit "DM" ->
  (3 <= length (parts_of data) ->
   nonempty (last (parts_of data) []) = true /\
   nonempty (text_from 2 data) = true) /\
  forall s, ~ In (line s (lit "ERR empty-message"))
                 (emitted w (handleCommand now sock data w)).
Proof.
  intros R C. apply reachable_Inv in R. split.
  - intros L. split; [|now apply dm_text_from].
    assert (M : trim data <> []).
    { intros M. unfold parts_of in L. rewrite M in L. simpl in L. lia. }
    pose proof (trim_last data M) as X.
    rewrite <- (join_split SPACE (trim data)) in X.
    rewrite last_join in X by apply split_not_nil. fold (parts_of data) in X.
    destruct (last (parts_of data) []); [discriminate X|reflexivity].
  - intros s. destruct (list_eq_dec N.eq_dec (trim data) []) as [T|T].
    { rewrite handleCommand_blank by assumption. now rewrite emitted_refl. }
    destruct (getUsernameBySocket sock w) as [n|] eqn:U.
    + rewrite (dm_emitted now sock data n w R T C U). unfold reply, line.
      repeat match goal with
        | |- context [if ?c then _ else _] => destruct c
        | |- context [match ?c with Some _ => _ | None => _ end] => destruct c
        end; simpl; intros H; intuition discriminate.
    + rewrite handleCommand_not_logged_in; auto.
      * rewrite emitted_send by reflexivity. unfold reply, line.
        destruct (live w sock); simpl; intros H; intuition discriminate.
      * rewrite C. discriminate.
Qed.

Lemma C10_dm_never_empty_message_witness :
  reachable both_online /\
  command_of (lit "dm alice  ") = lit "DM" /\
  forall s, ~ In (line s (lit "ERR empty-message"))
                 (emitted both_online (handleCommand 9 2 (lit "dm alice  ") both_online)).
Proof.
  split; [apply both_online_reachable|]. split; [reflexivity|].
  apply (C10_dm_never_empty_message 9 2 (lit "dm alice  ") both_online
           both_online_reachable eq_refl).
Defined.

(** ** More of the command engine *)

Lemma send_after_touch (now : Z) (sock : Socket) (m : jsstring) (w : World) :
  Inv w -> is_destroyed sock w = false ->
  sendToSocket sock m (updateActivity now sock w)
  = mkWorld (users (updateActivity now sock w)) (destroyed w)
            (trace w ++ [line sock m]).
Proof.
  intros I L.
  destruct (updateActivity_frame now sock w I) as [_ [_ [_ [D [T _]]]]].
  rewrite sendToSocket_live.
  - now rewrite D, T.
  - unfold is_destroyed. now rewrite D.
Qed.

(** X1.  A PING arrives from a logged-in sender whose connection is not
    destroyed, with or without further tokens.  The only write is PONG to
    the sender; the registry is as [updateActivity] left it and no socket
    flag changes. *)
Theorem X1_ping (now : Z) (sock : Socket) (data n : jsstring) (w : World) :
  reachable w ->
  is_destroyed sock w = false ->
  trim data <> [] ->
  command_of data = lit "PING" ->
  getUsernameBySocket sock w = Some n ->
  handleCommand now sock data w
  = mkWorld (users (updateActivity now sock w)) (destroyed w)
            (trace w ++ [line sock (lit "PONG")]).
Proof.
  intros R L T C U. apply reachable_Inv in R.
  rewrite handleCommand_session with (n := n); auto.
  2:{ rewrite C. discriminate. }
  cbv zeta. rewrite C.
  change (streq (lit "PING") (lit "MSG")) with false.
  change (streq (lit "PING") (lit "WHO")) with false.
  change (streq (lit "PING") (lit "DM")) with false.
  change (streq (lit "PING") (lit "PING")) with true. cbv iota.
  now apply send_after_touch.
Qed.

Lemma X1_ping_witness :
  reachable both_online /\
  is_destroyed 2 both_online = false /\
  trim (lit "ping now please") <> [] /\
  command_of (lit "ping now please") = lit "PING" /\
  getUsernameBySocket 2 both_online = Some bob /\
  emitted both_online (handleCommand 9 2 (lit "ping now please") both_online)
  = [line 2 (lit "PONG")].
Proof.
  assert (T : trim (lit "ping now please") <> []) by (vm_compute; discriminate).
  refine (conj both_online_reachable (conj eq_refl (conj T (conj eq_refl (conj eq_refl _))))).
  rewrite (X1_ping 9 2 (lit "ping now please") bob both_online
             both_online_reachable eq_refl T eq_refl eq_refl).
  reflexivity.
Defined.

(** X2.  A line arrives from a logged-in sender whose connection is not
    destroyed, and its command word, upper-cased, is none of LOGIN, MSG, WHO,
    DM and PING.  The only write is ERR unknown-command to the sender; the
    registry is as [updateActivity] left it and no socket flag changes. *)
Theorem X2_unknown_command (now : Z) (sock : Socket) (data n : jsstring) (w : World) :
  reachable w ->
  is_destroyed sock w = false ->
  trim data <> [] ->
  command_of data <> lit "LOGIN" ->
  command_of data <> lit "MSG" ->
  command_of data <> lit "WHO" ->
  command_of data <> lit "DM" ->
  command_of data <> lit "PING" ->
  getUsernameBySocket sock w = Some n ->
  handleCommand now sock data w
  = mkWorld (users (updateActivity now sock w)) (destroyed w)
            (trace w ++ [line sock (lit "ERR unknown-command")]).
Proof.
  intros R L T C1 C2 C3 C4 C5 U. apply reachable_Inv in R.
  rewrite handleCommand_session with (n := n); auto.
  cbv zeta. apply streq_neq in C2, C3, C4, C5. rewrite C2, C3, C4, C5.
  now apply send_after_touch.
Qed.

Lemma X2_unknown_command_witness :
  reachable both_online /\
  is_destroyed 2 both_online = false /\
  getUsernameBySocket 2 both_online = Some bob /\
  emitted both_online (handleCommand 9 2 (lit "quit") both_online)
  = [line 2 (lit "ERR unknown-command")].
Proof.
  refine (conj both_online_reachable (conj eq_refl (conj eq_refl _))).
  rewrite (X2_unknown_command 9 2 (lit "quit") bob both_online
             both_online_reachable eq_refl);
    try reflexivity; vm_compute; discriminate.
Defined.

Lemma split_one_token (sep : N) (s : jsstring) :
  ~ In sep s -> split sep s = [s].
Proof.
  induction s as [|c r IH]; intros H; simpl; auto.
  destruct (N.eqb c sep) eqn:E.
  - apply N.eqb_eq in E. subst. exfalso. apply H. now left.
  - rewrite IH; auto. intros X. apply H. now right.
Qed.

(** X3.  A LOGIN arrives on a connection that has no session and is not
    destroyed, and the name, joined and trimmed, is empty.  The only write
    is ERR invalid-username and nothing else changes.  The name is empty in
    particular when the trimmed line holds no space, that is for the word
    LOGIN alone. *)
Theorem X3_login_empty_name (now : Z) (sock : Socket) (data : jsstring) (w : World) :
  is_destroyed sock w = false ->
  trim data <> [] ->
  command_of data = lit "LOGIN" ->
  getUsernameBySocket sock w = None ->
  (text_from 1 data = [] ->
   handleCommand now sock data w
   = mkWorld (users w) (destroyed w)
             (trace w ++ [line sock (lit "ERR invalid-username")])) /\
  (~ In SPACE (trim data) -> text_from 1 data = []).
Proof.
  intros L T C U. split.
  - intros E. rewrite (handleCommand_login _ _ _ _ T C U). cbv zeta.
    rewrite E. simpl negb. cbv iota. now apply sendToSocket_live.
  - intros H. unfold text_from, parts_of. now rewrite (split_one_token _ _ H).
Qed.

Lemma X3_login_empty_name_witness :
  is_destroyed 3 both_online = false /\
  trim (lit " login ") <> [] /\
  command_of (lit " login ") = lit "LOGIN" /\
  getUsernameBySocket 3 both_online = None /\
  handleCommand 9 3 (lit " login ") both_online
  = mkWorld (users both_online) (destroyed both_online)
            (trace both_online ++ [line 3 (lit "ERR invalid-username")]).
Proof.
  assert (T : trim (lit " login ") <> []) by (vm_compute; discriminate).
  refine (conj eq_refl (conj T (conj eq_refl (conj eq_refl _)))).
  destruct (X3_login_empty_name 9 3 (lit " login ") both_online
              eq_refl T eq_refl eq_refl) as [H _].
  apply H. reflexivity.
Defined.

Lemma find_socket_app_new (sock : Socket) (n : jsstring) (d : userData)
      (m : list (jsstring * userData)) :
  find_socket sock m = None -> socket d = sock ->
  find_socket sock (m ++ [(n, d)]) = Some n.
Proof.
  intros H E. induction m as [|[k e] r IH]; simpl in *.
  - apply Nat.eqb_eq in E. now rewrite E.
  - destruct (Nat.eqb (socket e) sock); [discriminate|auto].
Qed.

Lemma Map_get_app_new (n : jsstring) (d : userData) (m : list (jsstring * userData)) :
  ~ In n (keys m) -> Map_get n (m ++ [(n, d)]) = Some d.
Proof.
  intros H. induction m as [|[k e] r IH]; simpl in *.
  - now rewrite streq_refl.
  - destruct (streq k n) eqn:E.
    + apply streq_eq in E. subst. exfalso. apply H. now left.
    + apply IH. intros X. apply H. now right.
Qed.

Lemma Map_get_app_other (k n : jsstring) (d : userData) (m : list (jsstring * userData)) :
  k <> n -> Map_get k (m ++ [(n, d)]) = Map_get k m.
Proof.
  intros H. induction m as [|[k' e] r IH]; simpl.
  - destruct (streq n k) eqn:X; auto. apply streq_eq in X. congruence.
  - now rewrite IH.
Qed.

(** A LOGIN for a free, non-empty name on a connection without a session. *)
Lemma login_registers (now : Z) (sock : Socket) (data : jsstring) (w : World) :
  is_destroyed sock w = false ->
  trim data <> [] ->
  command_of data = lit "LOGIN" ->
  getUsernameBySocket sock w = None ->
  text_from 1 data <> [] ->
  ~ In (text_from 1 data) (keys (users w)) ->
  handleCommand now sock data w
  = mkWorld (users w ++ [(text_from 1 data, mkUser sock now false)]) (destroyed w)
            (trace w ++ [EvSet (text_from 1 data) sock; line sock (lit "OK")]).
Proof.
  intros L T C U NE F. rewrite (handleCommand_login _ _ _ _ T C U). cbv zeta.
  apply nonempty_true in NE. rewrite NE. simpl negb. cbv iota.
  rewrite (proj2 (Map_has_false _ _) F).
  rewrite sendToSocket_live by exact L. simpl.
  rewrite (Map_set_new _ _ _ F), <- app_assoc. reflexivity.
Qed.

(** X4.  A LOGIN arrives on a connection that has no session and is not
    destroyed, for a name that is not empty and that no session holds.  The
    session is appended to the registry with the time of the call and
    [disconnecting] false, [users.set] is followed by the one write OK, and
    no flag changes.  Afterwards the reverse lookup of the connection gives
    the name, the lookup of the name gives the session, and every other
    connection and name is looked up as before. *)
Theorem X4_login_registers (now : Z) (sock : Socket) (data : jsstring) (w : World) :
  is_destroyed sock w = false ->
  trim data <> [] ->
  command_of data = lit "LOGIN" ->
  getUsernameBySocket sock w = None ->
  text_from 1 data <> [] ->
  ~ In (text_from 1 data) (keys (users w)) ->
  let n := text_from 1 data in
  let w' := handleCommand now sock data w in
  w' = mkWorld (users w ++ [(n, mkUser sock now false)]) (destroyed w)
               (trace w ++ [EvSet n sock; line sock (lit "OK")]) /\
  getUsernameBySocket sock w' = Some n /\
  Map_get n (users w') = Some (mkUser sock now false) /\
  (forall s, s <> sock -> getUsernameBySocket s w' = getUsernameBySocket s w) /\
  (forall k, k <> n -> Map_get k (users w') = Map_get k (users w)).
Proof.
  intros L T C U NE F n w'.
  assert (E : w' = mkWorld (users w ++ [(n, mkUser sock now false)]) (destroyed w)
                            (trace w ++ [EvSet n sock; line sock (lit "OK")]))
    by now apply login_registers.
  split; [exact E|]. rewrite E. unfold getUsernameBySocket. simpl.
  split; [now apply find_socket_app_new|].
  split; [now apply Map_get_app_new|]. split.
  - intros s NS. apply find_socket_app_other. simpl. congruence.
  - intros k NK. now apply Map_get_app_other.
Qed.

Lemma X4_login_registers_witness :
  is_destroyed 3 both_online = false /\
  trim (lit "login  carol ann ") <> [] /\
  command_of (lit "login  carol ann ") = lit "LOGIN" /\
  getUsernameBySocket 3 both_online = None /\
  text_from 1 (lit "login  carol ann ") = lit "carol ann" /\
  getUsernameBySocket 3 (handleCommand 9 3 (lit "login  carol ann ") both_online)
  = Some (lit "carol ann").
Proof.
  assert (T : trim (lit "login  carol ann ") <> []) by (vm_compute; discriminate).
  refine (conj eq_refl (conj T (conj eq_refl (conj eq_refl (conj eq_refl _))))).
  destruct (X4_login_registers 9 3 (lit "login  carol ann ") both_online
              eq_refl T eq_refl eq_refl) as [_ [H _]].
  - vm_compute. discriminate.
  - vm_compute. intuition discriminate.
  - exact H.
Defined.

(** X5.  A LOGIN arrives on a connection that has a session and is not
    destroyed, for any name: empty, free, held by another session or its
    own.  The only write is ERR already-logged-in; the registry is as
    [updateActivity] left it, with the same names, and no flag changes. *)
Theorem X5_login_twice (now : Z) (sock : Socket) (data n : jsstring) (w : World) :
  reachable w ->
  is_destroyed sock w = false ->
  trim data <> [] ->
  command_of data = lit "LOGIN" ->
  getUsernameBySocket sock w = Some n ->
  let w' := handleCommand now sock data w in
  w' = mkWorld (users (updateActivity now sock w)) (destroyed w)
               (trace w ++ [line sock (lit "ERR already-logged-in")]) /\
  keys (users w') = keys (users w) /\
  getUsernameBySocket sock w' = Some n.
Proof.
  intros R L T C U w'. apply reachable_Inv in R.
  assert (E : w' = mkWorld (users (updateActivity now sock w)) (destroyed w)
                            (trace w ++ [line sock (lit "ERR already-logged-in")])).
  { unfold w'. rewrite (handleCommand_relogin _ _ _ _ _ R T C U).
    now apply send_after_touch. }
  destruct (updateActivity_frame now sock w R) as [_ [K [_ [_ [_ G]]]]].
  split; [exact E|]. rewrite E. simpl. split; [exact K|].
  unfold getUsernameBySocket at 1. simpl.
  fold (getUsernameBySocket sock (updateActivity now sock w)). now rewrite G.
Qed.

Lemma X5_login_twice_witness :
  reachable both_online /\
  is_destroyed 2 both_online = false /\
  trim (lit "LOGIN robert") <> [] /\
  command_of (lit "LOGIN robert") = lit "LOGIN" /\
  getUsernameBySocket 2 both_online = Some bob /\
  keys (users (handleCommand 9 2 (lit "LOGIN robert") both_online)) = [alice; bob].
Proof.
  assert (T : trim (lit "LOGIN robert") <> []) by (vm_compute; discriminate).
  refine (conj both_online_reachable (conj eq_refl (conj T (conj eq_refl (conj eq_refl _))))).
  destruct (X5_login_twice 9 2 (lit "LOGIN robert") bob both_online
              both_online_reachable eq_refl T eq_refl eq_refl) as [_ [H _]].
  rewrite H. reflexivity.
Defined.

(** The session of a socket, after [updateActivity]. *)
Lemma touched_session (now : Z) (sock : Socket) (n : jsstring) (w : World) :
  Inv w -> getUsernameBySocket sock w = Some n ->
  Map_get n (users (updateActivity now sock w)) = Some (mkUser sock now false) /\
  (forall k, k <> n ->
     Map_get k (users (updateActivity now sock w)) = Map_get k (users w)).
Proof.
  intros I U. destruct (find_socket_Map_get _ _ _ I U) as [d [G [S [_ [_ D]]]]].
  destruct (updateActivity_session now sock n w I U) as [d' [G' ->]].
  rewrite G in G'. injection G' as <-. simpl in *. split.
  - rewrite (Map_get_set _ _ _ _ _ G), streq_refl. unfold touch.
    now rewrite S, D.
  - intros k NK. rewrite (Map_get_set _ _ _ _ _ G).
    destruct (streq n k) eqn:X; auto. apply streq_eq in X. congruence.
Qed.

(** X6.  Any line that is not blank, from a connection that has a session,
    stamps that session with the time of the call, whatever the command and
    whether it succeeds; the session keeps its socket, every other session
    is stored as before, and the names and their order do not change. *)
Theorem X6_activity_stamp (now : Z) (sock : Socket) (data n : jsstring) (w : World) :
  reachable w ->
  trim data <> [] ->
  getUsernameBySocket sock w = Some n ->
  let w' := handleCommand now sock data w in
  Map_get n (users w') = Some (mkUser sock now false) /\
  (forall k, k <> n -> Map_get k (users w') = Map_get k (users w)) /\
  keys (users w') = keys (users w).
Proof.
  intros R T U w'. apply reachable_Inv in R.
  destruct (handleCommand_session_frame now sock data n w R T U) as [A _].
  fold w' in A. rewrite A.
  destruct (touched_session now sock n w R U) as [B C].
  split; [exact B|]. split; [exact C|]. apply updateActivity_frame, R.
Qed.

Lemma X6_activity_stamp_witness :
  reachable both_online /\
  trim (lit "nonsense") <> [] /\
  getUsernameBySocket 1 both_online = Some alice /\
  Map_get alice (users (handleCommand 42 1 (lit "nonsense") both_online))
  = Some (mkUser 1 42 false).
Proof.
  assert (T : trim (lit "nonsense") <> []) by (vm_compute; discriminate).
  refine (conj both_online_reachable (conj T (conj eq_refl _))).
  apply (X6_activity_stamp 42 1 (lit "nonsense") alice both_online
           both_online_reachable T eq_refl).
Defined.

(** ** What a command may do *)

Lemma extends_start (w : World) : extends w w.
Proof. split; auto. exists []. now rewrite app_nil_r. Qed.

Lemma extends_more (w w1 w2 : World) (e : event) :
  extends w w1 -> destroyed w2 = destroyed w1 -> trace w2 = trace w1 ++ [e] ->
  command_event w e -> extends w w2.
Proof.
  intros [D [ev [T F]]] D2 T2 C. split; [congruence|].
  exists (ev ++ [e]). split.
  - now rewrite T2, T, app_assoc.
  - apply Forall_app. auto.
Qed.


Lemma extends_send (w w1 : World) (s : Socket) (m : jsstring) :
  extends w w1 -> extends w (sendToSocket s m w1).
Proof.
  intros E. unfold sendToSocket. destruct (is_destroyed s w1) eqn:L; simpl; auto.
  apply (extends_more w w1 _ (EvWrite s (m ++ [NEWLINE]))); auto.
  simpl. destruct E as [D _]. unfold is_destroyed in *. now rewrite <- D.
Qed.

Lemma extends_fold {A} (f : World -> A -> World) (w : World) (l : list A) :
  (forall a w1, extends w w1 -> extends w (f w1 a)) ->
  forall w1, extends w w1 -> extends w (fold_left f l w1).
Proof. intros H. induction l as [|a l IH]; intros w1 E; simpl; auto. Qed.

Lemma extends_broadcastToAll (w w1 : World) (m : jsstring) :
  extends w w1 -> extends w (broadcastToAll m w1).
Proof.
  intros E. unfold broadcastToAll. apply extends_fold; auto.
  intros a w2 E2. simpl. destruct (negb _); auto. now apply extends_send.
Qed.

Lemma extends_updateActivity (w w1 : World) (now : Z) (s : Socket) :
  extends w w1 -> extends w (updateActivity now s w1).
Proof.
  intros E. unfold updateActivity.
  destruct (getUsernameBySocket s w1) as [n|]; auto.
  destruct (nonempty n && Map_has n (users w1)); auto.
  destruct (Map_get n (users w1)); auto.
Qed.

Lemma extends_who (w w1 : World) (sock : Socket) (l : list (jsstring * userData)) :
  extends w w1 ->
  extends w (fold_left (fun w' e => sendToSocket sock (USER_line (fst e)) w') l w1).
Proof.
  intros E. apply extends_fold; auto. intros a w2 E2. now apply extends_send.
Qed.

Lemma extends_set (w w1 : World) (n : jsstring) (s : Socket)
      (m : list (jsstring * userData)) :
  extends w w1 -> extends w (emit (EvSet n s) (set_users m w1)).
Proof.
  intros E. apply (extends_more w w1 _ (EvSet n s)); auto. exact I.
Qed.

(** Whatever the line, [handleCommand] changes no socket flag and appends
    only writes to sockets that are not destroyed and [users.set]. *)
Lemma handleCommand_extends (now : Z) (sock : Socket) (data : jsstring) (w : World) :
  extends w (handleCommand now sock data w).
Proof.
  pose proof (extends_updateActivity w w now sock (extends_start w)) as U.
  unfold handleCommand. cbv zeta. split_ifs;
    repeat first
      [ exact U
      | apply extends_start
      | apply extends_send
      | apply extends_broadcastToAll
      | apply extends_who
      | apply extends_set ].
Qed.

(** X7.  Whatever line arrives on whatever connection, [handleCommand]
    changes no socket flag, and what it appends to the trace are writes to
    sockets that are not destroyed and [users.set]: it never destroys a
    connection, never deletes a session and never writes to a destroyed
    socket.  The names of the registry stay as they are, in order, or get
    one new name at the end. *)
Theorem X7_command_frame (now : Z) (sock : Socket) (data : jsstring) (w : World) :
  reachable w ->
  let w' := handleCommand now sock data w in
  destroyed w' = destroyed w /\
  (exists ev, trace w' = trace w ++ ev /\ Forall (command_event w) ev) /\
  (keys (users w') = keys (users w) \/
   exists n, keys (users w') = keys (users w) ++ [n]).
Proof.
  intros R w'. apply reachable_Inv in R.
  destruct (handleCommand_extends now sock data w) as [D E].
  split; [exact D|]. split; [exact E|]. unfold w'.
  destruct (list_eq_dec N.eq_dec (trim data) []) as [T|T].
  { left. now rewrite handleCommand_blank. }
  destruct (getUsernameBySocket sock w) as [n|] eqn:U.
  - left. destruct (handleCommand_session_frame now sock data n w R T U) as [A _].
    rewrite A. apply updateActivity_frame, R.
  - destruct (list_eq_dec N.eq_dec (command_of data) (lit "LOGIN")) as [C|C].
    + rewrite (handleCommand_login _ _ _ _ T C U). cbv zeta.
      destruct (nonempty (text_from 1 data)); simpl negb; cbv iota.
      * destruct (Map_has (text_from 1 data) (users w)) eqn:H.
        -- left. now autorewrite with frame.
        -- right. exists (text_from 1 data). autorewrite with frame. simpl.
           apply Map_has_false in H. rewrite (Map_set_new _ _ _ H).
           unfold keys. now rewrite map_app.
      * left. now autorewrite with frame.
    + left. rewrite (handleCommand_not_logged_in _ _ _ _ T C U).
      now autorewrite with frame.
Qed.

Lemma X7_command_frame_witness :
  reachable bob_lost /\
  destroyed (handleCommand 9 1 (lit "DM bob hi") bob_lost) = destroyed bob_lost /\
  emitted bob_lost (handleCommand 9 1 (lit "DM bob hi") bob_lost)
  = [line 1 (lit "ERR user-not-found")].
Proof.
  refine (conj bob_lost_reachable _).
  destruct (X7_command_frame 9 1 (lit "DM bob hi") bob_lost bob_lost_reachable)
    as [D _].
  split; [exact D|reflexivity].
Defined.

(** ** No write after a destroy *)

Lemma tail_split {A} (l pre post : list A) (e x : A) :
  l ++ [e] = pre ++ x :: post ->
  (post = [] /\ x = e /\ pre = l) \/
  (exists post', post = post' ++ [e] /\ l = pre ++ x :: post').
Proof.
  revert post. apply (rev_ind (fun post => l ++ [e] = pre ++ x :: post -> _)).
  - intros H. left. apply app_inj_tail in H as [H1 H2]. auto.
  - intros b p _ H. right. exists p.
    change (pre ++ x :: p ++ [b]) with (pre ++ (x :: p) ++ [b]) in H.
    rewrite app_assoc in H. apply app_inj_tail in H as [H1 H2]. now subst.
Qed.

(** One more event that is no destroy; a write goes to a live socket. *)
Lemma safe_event (w w' : World) (e : event) :
  safe w -> destroyed w' = destroyed w -> trace w' = trace w ++ [e] ->
  match e with
  | EvWrite s _ => is_destroyed s w = false
  | EvDestroy _ => False
  | _ => True
  end ->
  safe w'.
Proof.
  intros [S1 S2] D T C.
  assert (K : forall s, In (EvDestroy s) (trace w) -> is_destroyed s w' = true).
  { intros s X. unfold is_destroyed. rewrite D. now apply S2. }
  split.
  - intros pre post s m H X. rewrite T in H.
    apply tail_split in H as [[_ [H _]]|[post' [P H]]].
    + subst e. exact C.
    + subst post. apply in_app_or in X as [X|[X|[]]].
      * exact (S1 _ _ _ _ H X).
      * subst e. rewrite S2 in C; [discriminate|].
        rewrite H. apply in_or_app. right. now left.
  - intros s X. rewrite T in X. apply in_app_or in X as [X|[X|[]]]; auto.
    subst e. contradiction.
Qed.

(** One more destroy. *)
Lemma safe_destroy (w : World) (s : Socket) : safe w -> safe (destroy s w).
Proof.
  intros [S1 S2]. split.
  - intros pre post s' m H X. simpl in H.
    apply tail_split in H as [[H _]|[post' [P H]]].
    + subst post. contradiction.
    + subst post. apply in_app_or in X as [X|[X|[]]]; [|discriminate].
      exact (S1 _ _ _ _ H X).
  - intros s' X. simpl in X. apply is_destroyed_In. simpl.
    apply in_app_or in X as [X|[X|[]]].
    + apply flag_kept. apply is_destroyed_In. now apply S2.
    + injection X as <-. destruct (is_destroyed s w) eqn:E.
      * now apply is_destroyed_In.
      * now left.
Qed.

(** Flags may be set, the trace staying as it is. *)
Lemma safe_flags (w w' : World) :
  safe w -> trace w' = trace w ->
  (forall s, In s (destroyed w) -> In s (destroyed w')) -> safe w'.
Proof.
  intros [S1 S2] T F. split; rewrite T; auto.
  intros s X. apply is_destroyed_In, F, is_destroyed_In. auto.
Qed.

Lemma safe_send (w : World) (s : Socket) (m : jsstring) :
  safe w -> safe (sendToSocket s m w).
Proof.
  intros S. unfold sendToSocket. destruct (is_destroyed s w) eqn:L; simpl; auto.
  now apply (safe_event w _ (EvWrite s (m ++ [NEWLINE]))).
Qed.

Lemma safe_fold {A} (f : World -> A -> World) (l : list A) :
  (forall a w, safe w -> safe (f w a)) ->
  forall w, safe w -> safe (fold_left f l w).
Proof. intros H. induction l as [|a l IH]; intros w S; simpl; auto. Qed.

Lemma safe_broadcast (w : World) (m : jsstring) (ex : option Socket) :
  safe w -> safe (broadcast m ex w).
Proof.
  unfold broadcast. apply safe_fold. intros a w1 S. simpl.
  destruct (differs _ _ && negb _); auto. now apply safe_send.
Qed.

Lemma safe_ensureDestroyed (w : World) (s : Socket) :
  safe w -> safe (ensureDestroyed s w).
Proof.
  intros S. unfold ensureDestroyed. destruct (negb _); auto.
  now apply safe_destroy.
Qed.

Lemma safe_handleDisconnect (w : World) (s : Socket) :
  safe w -> safe (handleDisconnect s w).
Proof.
  intros S. unfold handleDisconnect.
  destruct (getUsernameBySocket s w) as [n|]; [|now apply safe_ensureDestroyed].
  destruct (nonempty n); [|now apply safe_ensureDestroyed].
  destruct (Map_get n (users w)) as [d|].
  - destruct (disconnecting d); auto.
    apply safe_ensureDestroyed, safe_broadcast.
    apply (safe_event w _ (EvDelete n)); auto.
  - apply safe_ensureDestroyed, safe_broadcast.
    apply (safe_event w _ (EvDelete n)); auto.
Qed.

Lemma safe_extends (w w' : World) : safe w -> extends w w' -> safe w'.
Proof.
  intros S [D [ev [T F]]]. revert w' D T.
  induction ev as [|e ev IH] using rev_ind; intros w' D T.
  - rewrite app_nil_r in T. apply (safe_flags w); auto. now rewrite D.
  - apply Forall_app in F as [F1 F2]. inversion F2 as [|? ? C _]; subst.
    apply (safe_event (mkWorld (users w) (destroyed w) (trace w ++ ev)) w' e).
    + now apply IH.
    + exact D.
    + simpl. now rewrite T, app_assoc.
    + destruct e; simpl in *; auto.
Qed.

Lemma step_safe (w w' : World) : step w w' -> safe w -> safe w'.
Proof.
  intros T S. destruct T.
  - apply (safe_extends w); auto. apply handleCommand_extends.
  - now apply safe_handleDisconnect.
  - unfold checkIdleUsers. apply safe_fold; auto.
    intros a w1 S1. unfold evict. now apply safe_handleDisconnect, safe_send.
  - apply (safe_flags w); auto. intros s. simpl. apply flag_kept.
  - unfold shutdown.
    apply (safe_event (fold_left (fun w' e => destroy (socket (snd e)) w')
                                 (users (broadcast (lit "INFO server-shutting-down") None w))
                                 (broadcast (lit "INFO server-shutting-down") None w))
                      _ EvClear); auto.
    apply safe_fold; [|now apply safe_broadcast].
    intros a w1 S1. now apply safe_destroy.
Qed.

(** X8.  In every reachable world, no write in the trace follows a
    [destroy()] call of the server on the same socket, and every socket the
    server destroyed carries the flag: across commands, teardowns, sweeps
    and the shutdown the server never writes to a connection it has
    destroyed. *)
Theorem X8_no_write_after_destroy (w : World) :
  reachable w ->
  no_write_after_destroy (trace w) /\
  forall s, In (EvDestroy s) (trace w) -> is_destroyed s w = true.
Proof.
  induction 1 as [|w w' R IH S].
  - split.
    + intros pre post s m H. destruct pre; discriminate.
    + intros s [].
  - exact (step_safe w w' S IH).
Qed.

Lemma X8_no_write_after_destroy_witness :
  reachable (handleCommand 9 2 (lit "MSG bye") (handleDisconnect 1 both_online)) /\
  no_write_after_destroy
    (trace (handleCommand 9 2 (lit "MSG bye") (handleDisconnect 1 both_online))).
Proof.
  assert (R : reachable (handleCommand 9 2 (lit "MSG bye")
                                       (handleDisconnect 1 both_online))).
  { by_command. eapply reach_step; [apply both_online_reachable|].
    apply step_disconnect. }
  split; [exact R|]. apply (X8_no_write_after_destroy _ R).
Defined.

(** ** More of the teardown *)

Lemma find_socket_delete_other (s : Socket) (n : jsstring)
      (m : list (jsstring * userData)) :
  find_socket s m <> Some n ->
  find_socket s (Map_delete n m) = find_socket s m.
Proof.
  unfold Map_delete. induction m as [|[k d] r IH]; simpl; auto.
  intros H. destruct (Nat.eqb (socket d) s) eqn:E.
  - destruct (streq k n) eqn:K.
    + apply streq_eq in K. subst. congruence.
    + simpl. now rewrite E.
  - destruct (streq k n) eqn:K; simpl; [|rewrite E]; auto.
Qed.

Lemma Map_get_delete_other (k n : jsstring) (m : list (jsstring * userData)) :
  k <> n -> Map_get k (Map_delete n m) = Map_get k m.
Proof.
  intros H. unfold Map_delete. induction m as [|[k' d] r IH]; simpl; auto.
  destruct (streq k' n) eqn:E; simpl.
  - apply streq_eq in E. subst k'.
    destruct (streq n k) eqn:X; auto. apply streq_eq in X. congruence.
  - now rewrite IH.
Qed.

Lemma departing_not_remaining (sock : Socket) (n : jsstring) (w : World) :
  Inv w -> getUsernameBySocket sock w = Some n -> ~ In sock (remaining n w).
Proof.
  intros I U H. apply remaining_spec in H as [m [d [X [K [E _]]]]].
  apply K. destruct (find_socket_Some _ _ _ U) as [d' [X' E']].
  apply (NoDup_sockets_inj (users w) m n d d'); auto; [apply I|congruence].
Qed.

Lemma other_flag (s sock : Socket) (w : World) :
  s <> sock ->
  existsb (Nat.eqb s) (if is_destroyed sock w then destroyed w else sock :: destroyed w)
  = is_destroyed s w.
Proof.
  intros H. destruct (is_destroyed sock w); auto. simpl.
  apply Nat.eqb_neq in H. now rewrite H.
Qed.

(** X9.  The disconnect handler runs for a connection, with or without a
    session.  Every other connection keeps its flag and its session, every
    name but the departing one is looked up as before, and nothing is
    written to the departing connection.  When the connection has no
    session the registry is untouched and nothing is written at all: the
    handler only destroys the socket, unless it is destroyed already. *)
Theorem X9_teardown_frame (sock : Socket) (w : World) :
  reachable w ->
  let w1 := handleDisconnect sock w in
  (forall s, s <> sock ->
     is_destroyed s w1 = is_destroyed s w /\
     getUsernameBySocket s w1 = getUsernameBySocket s w) /\
  (forall k, getUsernameBySocket sock w <> Some k ->
     Map_get k (users w1) = Map_get k (users w)) /\
  (forall message, ~ In (EvWrite sock message) (emitted w w1)) /\
  (getUsernameBySocket sock w = None ->
   users w1 = users w /\
   emitted w w1 = if is_destroyed sock w then [] else [EvDestroy sock]).
Proof.
  intros R w1. apply reachable_Inv in R.
  destruct (getUsernameBySocket sock w) as [n|] eqn:U.
  - assert (E : w1 = mkWorld (Map_delete n (users w))
                   (if is_destroyed sock w then destroyed w else sock :: destroyed w)
                   (trace w ++ teardown_events n sock w))
      by now apply handleDisconnect_session.
    split; [|split; [|split; [|discriminate]]].
    + intros s NS. rewrite E. split.
      * unfold is_destroyed at 1. simpl. now apply other_flag.
      * unfold getUsernameBySocket. simpl. apply find_socket_delete_other.
        intros X. apply NS.
        destruct (find_socket_Some _ _ _ X) as [d [I1 E1]].
        destruct (find_socket_Some _ _ _ U) as [d' [I2 E2]].
        rewrite (NoDup_keys_inj _ _ _ _ (proj1 R) I1 I2) in E1. congruence.
    + intros k NK. rewrite E. simpl. apply Map_get_delete_other. congruence.
    + intros m X. unfold w1 in X. rewrite (teardown_emitted _ _ _ R U) in X.
      unfold teardown_events in X. destruct X as [X|X]; [discriminate|].
      apply in_app_or in X as [X|X].
      * apply in_map_iff in X as [s [X1 X2]]. injection X1 as -> _.
        exact (departing_not_remaining sock n w R U X2).
      * destruct (live w sock); simpl in X; intuition discriminate.
  - assert (E : w1 = mkWorld (users w)
                   (if is_destroyed sock w then destroyed w else sock :: destroyed w)
                   (trace w ++ if live w sock then [EvDestroy sock] else [])).
    { unfold w1. rewrite (handleDisconnect_nosession _ _ U).
      apply ensureDestroyed_spec. }
    assert (M : emitted w w1 = if is_destroyed sock w then [] else [EvDestroy sock]).
    { apply emitted_app. rewrite E. simpl. unfold live.
      now destruct (is_destroyed sock w). }
    split; [|split; [|split]].
    + intros s NS. rewrite E. split; auto.
      unfold is_destroyed at 1. simpl. now apply other_flag.
    + intros k _. now rewrite E.
    + intros m. rewrite M. destruct (is_destroyed sock w); simpl;
        intuition discriminate.
    + intros _. split; [now rewrite E|exact M].
Qed.

Lemma X9_teardown_frame_witness :
  reachable both_online /\
  getUsernameBySocket 7 both_online = None /\
  users (handleDisconnect 7 both_online) = users both_online /\
  emitted both_online (handleDisconnect 7 both_online) = [EvDestroy 7].
Proof.
  refine (conj both_online_reachable (conj eq_refl _)).
  destruct (X9_teardown_frame 7 both_online both_online_reachable)
    as [_ [_ [_ H]]].
  exact (H eq_refl).
Defined.

(** ** The broadcast and the shutdown *)

(** X10.  [broadcast] with an excluded socket writes the message once to
    each registered socket that is not destroyed and is not the excluded one,
    in registry order, and to no other; it changes neither the registry nor a
    flag.  With no exclusion it writes to every registered live socket. *)
Theorem X10_broadcast_excluding (message : jsstring) (ex : option Socket) (w : World) :
  broadcast message ex w
  = mkWorld (users w) (destroyed w)
            (trace w ++ map (fun s => line s message) (recipients ex w)) /\
  (forall s, In s (recipients ex w)
             <-> In s (sockets (users w)) /\ is_destroyed s w = false
                 /\ ex <> Some s) /\
  (forall s, ex = Some s -> forall m, ~ In (EvWrite s m) (emitted w (broadcast message ex w))).
Proof.
  assert (A : forall s, In s (recipients ex w)
             <-> In s (sockets (users w)) /\ is_destroyed s w = false
                 /\ ex <> Some s).
  { intros s. rewrite recipients_sockets, filter_In, andb_true_iff.
    unfold live. rewrite negb_true_iff. destruct ex as [x|]; simpl.
    - rewrite negb_true_iff, Nat.eqb_neq. split.
      + intros [H1 [H2 H3]]. repeat split; auto; congruence.
      + intros [H1 [H2 H3]]. repeat split; auto; congruence.
    - split; intros [H1 H2]; repeat split; try tauto; try discriminate. }
  split; [apply broadcast_spec|]. split; [exact A|].
  intros s E m X. rewrite (emitted_app w _ _ (f_equal trace (broadcast_spec message ex w))) in X.
  apply in_map_iff in X as [s' [X1 X2]]. injection X1 as -> _.
  apply A in X2. tauto.
Qed.

Lemma destroy_fold_spec (l : list (jsstring * userData)) (w : World) :
  let w' := fold_left (fun w' e => destroy (socket (snd e)) w') l w in
  users w' = users w /\
  trace w' = trace w ++ map EvDestroy (sockets l) /\
  forall s, is_destroyed s w' = is_destroyed s w || existsb (Nat.eqb s) (sockets l).
Proof.
  revert w. induction l as [|e l IH]; intros w; simpl.
  - rewrite app_nil_r. repeat split; auto. intros s. now rewrite orb_false_r.
  - destruct (IH (destroy (socket (snd e)) w)) as [U [T D]].
    split; [exact U|]. split.
    + rewrite T. simpl. now rewrite <- app_assoc.
    + intros s. rewrite D. unfold is_destroyed at 1. simpl.
      fold (is_destroyed (socket (snd e)) w).
      destruct (is_destroyed (socket (snd e)) w) eqn:X.
      * fold (is_destroyed s w). destruct (Nat.eqb s (socket (snd e))) eqn:Y.
        -- apply Nat.eqb_eq in Y. subst. rewrite X. reflexivity.
        -- reflexivity.
      * simpl. fold (is_destroyed s w).
        destruct (Nat.eqb s (socket (snd e))); destruct (is_destroyed s w); reflexivity.
Qed.

(** X11.  The shutdown handler writes INFO server-shutting-down once to
    each registered socket that is not destroyed, then calls [destroy()] on
    every registered socket, in registry order, then clears the registry.
    Afterwards the registry is empty, every socket that was registered is
    destroyed and every other socket has the flag it had. *)
Theorem X11_shutdown (w : World) :
  users (shutdown w) = [] /\
  emitted w (shutdown w)
  = map (fun s => line s (lit "INFO server-shutting-down")) (recipients None w)
    ++ map EvDestroy (sockets (users w)) ++ [EvClear] /\
  (forall s, is_destroyed s (shutdown w)
             = is_destroyed s w || existsb (Nat.eqb s) (sockets (users w))) /\
  (forall s, getUsernameBySocket s (shutdown w) = None).
Proof.
  pose proof (broadcast_spec (lit "INFO server-shutting-down") None w) as B.
  destruct (destroy_fold_spec (users w)
              (broadcast (lit "INFO server-shutting-down") None w)) as [U [T D]].
  split; [reflexivity|]. split; [|split; [|reflexivity]].
  - apply emitted_app. unfold shutdown. simpl.
    replace (users (broadcast (lit "INFO server-shutting-down") None w))
      with (users w) by now rewrite B.
    rewrite T, B. simpl. now rewrite <- !app_assoc.
  - intros s. unfold shutdown. unfold is_destroyed at 1. simpl.
    replace (users (broadcast (lit "INFO server-shutting-down") None w))
      with (users w) by now rewrite B.
    fold (is_destroyed s (fold_left (fun w' e => destroy (socket (snd e)) w') (users w)
                            (broadcast (lit "INFO server-shutting-down") None w))).
    rewrite D. f_equal. unfold is_destroyed. now rewrite B.
Qed.

Lemma filter_none {A} (p : A -> bool) (l : list A) :
  (forall x, In x l -> p x = false) -> filter p l = [].
Proof.
  induction l as [|a l IH]; intros H; simpl; auto.
  rewrite (H a) by now left. apply IH. intros x X. apply H. now right.
Qed.

(** X12.  A sweep in which no session has been idle for longer than the
    threshold changes nothing, and a sweep repeated at the same time changes
    nothing the second time: whoever it had to evict is gone, whoever stays
    is not touched. *)
Theorem X12_sweep_idempotent (now : Z) (w : World) :
  reachable w ->
  ((forall n d, In (n, d) (users w) -> (now - lastActivity d <= IDLE_TIMEOUT)%Z) ->
   checkIdleUsers now w = w) /\
  checkIdleUsers now (checkIdleUsers now w) = checkIdleUsers now w.
Proof.
  intros R. apply reachable_Inv in R. split.
  - intros H. unfold checkIdleUsers, usersToDisconnect.
    rewrite filter_none; auto. intros [n d] X. simpl.
    unfold idle. apply andb_false_iff. left. rewrite Z.gtb_ltb.
    apply Z.ltb_ge. exact (H n d X).
  - destruct (checkIdleUsers_spec now w R) as [_ [U _]].
    unfold checkIdleUsers at 1. unfold usersToDisconnect. rewrite U.
    rewrite filter_none; auto. intros e X. apply filter_In in X as [_ X].
    now apply negb_true_iff.
Qed.

(** At 60000 alice, last active at 0, is at the threshold and stays; at
    60003 she is evicted, once. *)
Lemma X12_sweep_idempotent_witness :
  reachable both_online /\
  checkIdleUsers 60000 both_online = both_online /\
  checkIdleUsers 60003 (checkIdleUsers 60003 both_online)
  = checkIdleUsers 60003 both_online.
Proof.
  refine (conj both_online_reachable _).
  destruct (X12_sweep_idempotent 60000 both_online both_online_reachable) as [A _].
  destruct (X12_sweep_idempotent 60003 both_online both_online_reachable) as [_ B].
  split; [|exact B]. apply A. intros n d X. vm_compute in X.
  destruct X as [X|[X|[]]]; injection X as <- <-; vm_compute; discriminate.
Defined.

(** ** Activity and the sweep *)

(** X13.  A line that is not blank arrives at time [t] from the connection
    of the session [n]; the next sweep runs at time [t'].  The session is
    still in the registry after the sweep exactly when [t' - t] is at most
    the threshold (60000, the bound included), and then it is stored as the
    command left it. *)
Theorem X13_activity_defers_eviction
        (t t' : Z) (sock : Socket) (data n : jsstring) (w : World) :
  reachable w ->
  trim data <> [] ->
  getUsernameBySocket sock w = Some n ->
  let w2 := checkIdleUsers t' (handleCommand t sock data w) in
  (In n (keys (users w2)) <-> (t' - t <= IDLE_TIMEOUT)%Z) /\
  ((t' - t <= IDLE_TIMEOUT)%Z ->
   Map_get n (users w2) = Some (mkUser sock t false)).
Proof.
  intros R T U w2. apply reachable_Inv in R.
  pose proof (handleCommand_Inv t sock data w R) as I1.
  destruct (handleCommand_session_frame t sock data n w R T U) as [A _].
  destruct (touched_session t sock n w R U) as [G _]. rewrite <- A in G.
  destruct (checkIdleUsers_spec t' _ I1) as [I2 [F _]]. fold w2 in I2, F.
  pose proof (Map_get_In _ _ _ G) as X.
  assert (K : (t' - t <= IDLE_TIMEOUT)%Z -> In (n, mkUser sock t false) (users w2)).
  { intros H. rewrite F. apply filter_In. split; auto. simpl.
    unfold idle. simpl. rewrite andb_true_r. apply negb_true_iff.
    rewrite Z.gtb_ltb. now apply Z.ltb_ge. }
  split; [split|].
  - intros Y. apply in_map_iff in Y as [[k d] [Y1 Y2]]. simpl in Y1. subst k.
    rewrite F in Y2. apply filter_In in Y2 as [Y2 Y3].
    rewrite (NoDup_keys_inj _ _ _ _ (proj1 I1) Y2 X) in Y3. simpl in Y3.
    unfold idle in Y3. simpl in Y3. rewrite andb_true_r in Y3.
    apply negb_true_iff in Y3. rewrite Z.gtb_ltb in Y3. now apply Z.ltb_ge.
  - intros H. apply (in_map fst) in K; auto.
  - intros H. apply In_Map_get; auto. apply I2.
Qed.

Lemma X13_activity_defers_eviction_witness :
  reachable both_online /\
  trim (lit "PING") <> [] /\
  getUsernameBySocket 1 both_online = Some alice /\
  keys (users (checkIdleUsers 60003 both_online)) = [bob] /\
  In alice (keys (users (checkIdleUsers 60003
                           (handleCommand 50000 1 (lit "PING") both_online)))).
Proof.
  assert (T : trim (lit "PING") <> []) by (vm_compute; discriminate).
  refine (conj both_online_reachable (conj T (conj eq_refl (conj eq_refl _)))).
  apply (X13_activity_defers_eviction 50000 60003 1 (lit "PING") alice both_online
           both_online_reachable T eq_refl).
  vm_compute. discriminate.
Defined.

(** X14.  In every reachable world each connection has at most one
    session, and for every stored session the reverse lookup of its socket
    gives its name and the lookup of its name gives the session.  Every
    stored name is non-empty and neither begins nor ends with white space,
    and no stored session has [disconnecting] set: the tests of that flag in
    the disconnect handler and in the sweep never find it set. *)
Theorem X14_registry_invariants (w : World) :
  reachable w ->
  NoDup (sockets (users w)) /\
  forall n d, In (n, d) (users w) ->
    getUsernameBySocket (socket d) w = Some n /\
    Map_get n (users w) = Some d /\
    n <> [] /\
    is_ws (hd SPACE n) = false /\
    is_ws (last n SPACE) = false /\
    disconnecting d = false.
Proof.
  intros R. apply reachable_Inv in R. destruct R as [NK [NS F]].
  split; [exact NS|]. intros n d X.
  destruct (proj1 (Forall_forall _ _) F _ X) as [A [B C]]. simpl in A, B, C.
  apply nonempty_true in A.
  split; [now apply In_find_socket|]. split; [now apply In_Map_get|].
  split; [exact A|]. split; [|split; [|exact C]].
  - pose proof (trimEnd_head _ (trimStart_head n)) as H.
    fold (trim n) in H. rewrite B in H. destruct n; [congruence|exact H].
  - rewrite <- B. apply trim_last. now rewrite B.
Qed.

Lemma X14_registry_invariants_witness :
  reachable spaced_online /\
  getUsernameBySocket 2 spaced_online = Some (lit "a b") /\
  Map_get (lit "a b") (users spaced_online) = Some (mkUser 2 1 false).
Proof.
  refine (conj spaced_online_reachable _).
  destruct (X14_registry_invariants spaced_online spaced_online_reachable)
    as [_ H].
  destruct (H (lit "a b") (mkUser 2 1 false)) as [A [B _]].
  - vm_compute. auto.
  - split; [exact A|exact B].
Defined.

(** ** Tokens *)

(** X15.  The trimmed line is a first token, a space and a rest.  The
    command is the first token upper-cased and the text of LOGIN and MSG is
    the rest, trimmed: splitting at single spaces and joining again loses no
    inner space.  When the rest is a second token, a space and more, the DM
    target is the second token and the DM text is what follows, trimmed;
    when the rest holds no space the line has two tokens, too few for DM. *)
Theorem X15_tokens (data c rest : jsstring) :
  trim data = c ++ SPACE :: rest ->
  ~ In SPACE c ->
  command_of data = toUpperCase c /\
  text_from 1 data = trim rest /\
  (forall t rest2, rest = t ++ SPACE :: rest2 -> ~ In SPACE t ->
     nth 1 (parts_of data) [] = t /\
     text_from 2 data = trim rest2 /\
     3 <= length (parts_of data)) /\
  (~ In SPACE rest -> length (parts_of data) = 2).
Proof.
  intros T NC.
  assert (P : parts_of data = c :: split SPACE rest).
  { unfold parts_of. rewrite T. now apply split_app_sep. }
  unfold command_of, text_from. rewrite P. simpl.
  split; [reflexivity|]. split; [unfold slice; simpl; now rewrite join_split|].
  split.
  - intros t rest2 E NT. subst rest. rewrite (split_app_sep _ _ _ NT).
    split; [reflexivity|]. split.
    + unfold slice. simpl. now rewrite join_split.
    + pose proof (split_not_nil SPACE rest2).
      destruct (split SPACE rest2); [congruence|simpl; lia].
  - intros NR. now rewrite (split_one_token _ _ NR).
Qed.

Lemma X15_tokens_witness :
  trim (lit "  msg hello   big  world ") = lit "msg" ++ SPACE :: lit "hello   big  world" /\
  ~ In SPACE (lit "msg") /\
  text_from 1 (lit "  msg hello   big  world ") = lit "hello   big  world".
Proof.
  assert (N : ~ In SPACE (lit "msg")) by (vm_compute; intuition discriminate).
  refine (conj eq_refl (conj N _)).
  destruct (X15_tokens (lit "  msg hello   big  world ") (lit "msg")
              (lit "hello   big  world") eq_refl N) as [_ [H _]].
  rewrite H. reflexivity.
Defined.

(** ** Login, then teardown *)

Lemma Map_delete_absent (k : jsstring) (m : list (jsstring * userData)) :
  ~ In k (keys m) -> Map_delete k m = m.
Proof.
  unfold Map_delete. induction m as [|[k' d] r IH]; simpl; auto.
  intros H. destruct (streq k' k) eqn:E.
  - apply streq_eq in E. subst. exfalso. apply H. now left.
  - simpl. rewrite IH; auto.
Qed.

Lemma Map_delete_last (k : jsstring) (d : userData) (m : list (jsstring * userData)) :
  ~ In k (keys m) -> Map_delete k (m ++ [(k, d)]) = m.
Proof.
  intros H. unfold Map_delete. rewrite filter_app. simpl.
  rewrite streq_refl. simpl. rewrite app_nil_r. now apply Map_delete_absent.
Qed.

(** X16.  A connection logs in under a free name and is torn down before
    anything else happens.  The registry is again exactly what it was before
    the login, the connection is destroyed, and the teardown has written
    INFO <name> disconnected to the registered sockets that are not
    destroyed, the same that a broadcast before the login would reach. *)
Theorem X16_login_then_teardown (now : Z) (sock : Socket) (data : jsstring) (w : World) :
  reachable w ->
  is_destroyed sock w = false ->
  trim data <> [] ->
  command_of data = lit "LOGIN" ->
  getUsernameBySocket sock w = None ->
  text_from 1 data <> [] ->
  ~ In (text_from 1 data) (keys (users w)) ->
  let n := text_from 1 data in
  let w1 := handleCommand now sock data w in
  let w2 := handleDisconnect sock w1 in
  users w2 = users w /\
  is_destroyed sock w2 = true /\
  emitted w1 w2
  = EvDelete n
    :: map (fun s => line s (INFO_disconnected n)) (recipients None w)
    ++ [EvDestroy sock].
Proof.
  intros R L T C U NE F n w1 w2. apply reachable_Inv in R.
  assert (E : w1 = mkWorld (users w ++ [(n, mkUser sock now false)]) (destroyed w)
                            (trace w ++ [EvSet n sock; line sock (lit "OK")]))
    by now apply login_registers.
  assert (I1 : Inv w1) by now apply handleCommand_Inv.
  assert (U1 : getUsernameBySocket sock w1 = Some n).
  { rewrite E. unfold getUsernameBySocket. simpl. now apply find_socket_app_new. }
  unfold w2. split; [|split].
  - rewrite (handleDisconnect_session _ _ _ I1 U1). simpl. rewrite E. simpl.
    now apply Map_delete_last.
  - apply handleDisconnect_done, I1.
  - rewrite (teardown_emitted _ _ _ I1 U1). unfold teardown_events. f_equal.
    f_equal.
    + f_equal. unfold remaining. rewrite !recipients_sockets. rewrite E. simpl.
      rewrite (Map_delete_last _ _ _ F). reflexivity.
    + unfold live. rewrite E. unfold is_destroyed in *. simpl. now rewrite L.
Qed.

Lemma X16_login_then_teardown_witness :
  reachable both_online /\
  is_destroyed 3 both_online = false /\
  command_of (lit "LOGIN carol") = lit "LOGIN" /\
  getUsernameBySocket 3 both_online = None /\
  users (handleDisconnect 3 (handleCommand 9 3 (lit "LOGIN carol") both_online))
  = users both_online.
Proof.
  refine (conj both_online_reachable (conj eq_refl (conj eq_refl (conj eq_refl _)))).
  destruct (X16_login_then_teardown 9 3 (lit "LOGIN carol") both_online
              both_online_reachable eq_refl) as [H _];
    try reflexivity; try exact H; vm_compute; intuition discriminate.
Defined.

(** ** The data listener *)

Lemma split_join (sep : N) (l : list jsstring) :
  l <> [] -> Forall (fun t => ~ In sep t) l -> split sep (join sep l) = l.
Proof.
  induction l as [|t l IH]; [congruence|]. intros _ F.
  inversion F as [|? ? Ft Fl]; subst. destruct l as [|u l].
  - simpl. now apply split_one_token.
  - rewrite join_cons by discriminate. rewrite split_app_sep by assumption.
    rewrite IH; auto. discriminate.
Qed.

(** The test of the listener repeats the test of [handleCommand]. *)
Lemma onData_fold (now : Z) (sock : Socket) (data : jsstring) (w : World) :
  onData now sock data w
  = fold_left (fun w' cmd => handleCommand now sock cmd w') (split NEWLINE data) w.
Proof.
  unfold onData. generalize (split NEWLINE data) as l. intros l. revert w.
  induction l as [|cmd l IH]; intros w; simpl; auto.
  destruct (nonempty (trim cmd)) eqn:E; rewrite IH; auto.
  apply nonempty_false in E. now rewrite handleCommand_blank.
Qed.

(** X17.  A chunk that is lines joined by newlines, none of which holds a
    newline, is handled as its lines one after the other, each by
    [handleCommand] in the world the line before left; blank lines among
    them change nothing. *)
Theorem X17_chunk_of_lines (now : Z) (sock : Socket) (lines : list jsstring) (w : World) :
  lines <> [] ->
  Forall (fun l => ~ In NEWLINE l) lines ->
  onData now sock (join NEWLINE lines) w
  = fold_left (fun w' l => handleCommand now sock l w') lines w.
Proof.
  intros NE F. rewrite onData_fold. now rewrite split_join.
Qed.

Lemma X17_chunk_of_lines_witness :
  [lit "LOGIN dave"; []; lit "MSG hi"] <> [] /\
  Forall (fun l => ~ In NEWLINE l) [lit "LOGIN dave"; []; lit "MSG hi"] /\
  emitted both_online
    (onData 9 3 (lit "LOGIN dave" ++ [NEWLINE; NEWLINE] ++ lit "MSG hi") both_online)
  = [EvSet (lit "dave") 3; line 3 (lit "OK");
     line 1 (lit "MSG dave hi"); line 2 (lit "MSG dave hi");
     line 3 (lit "MSG dave hi")].
Proof.
  assert (N : [lit "LOGIN dave"; []; lit "MSG hi"] <> []) by discriminate.
  assert (F : Forall (fun l => ~ In NEWLINE l) [lit "LOGIN dave"; []; lit "MSG hi"]).
  { repeat constructor; vm_compute; intuition discriminate. }
  refine (conj N (conj F _)).
  change (lit "LOGIN dave" ++ [NEWLINE; NEWLINE] ++ lit "MSG hi")
    with (join NEWLINE [lit "LOGIN dave"; []; lit "MSG hi"]).
  rewrite (X17_chunk_of_lines 9 3 _ both_online N F). reflexivity.
Defined.

Lemma split_blank (sep : N) (s : jsstring) :
  forallb is_ws s = true ->
  Forall (fun t => forallb is_ws t = true) (split sep s).
Proof.
  induction s as [|c r IH]; intros H; simpl.
  - repeat constructor.
  - simpl in H. apply andb_true_iff in H as [H1 H2]. specialize (IH H2).
    destruct (N.eqb c sep).
    + constructor; auto.
    + destruct (split sep r) as [|t ts]; [repeat constructor; simpl; now rewrite H1|].
      inversion IH; subst. constructor; auto. simpl. now rewrite H1.
Qed.

(** X18.  A chunk that holds only white space and line ends changes
    nothing: no reply, no activity stamp, no event. *)
Theorem X18_blank_chunk (now : Z) (sock : Socket) (data : jsstring) (w : World) :
  forallb is_ws data = true -> onData now sock data w = w.
Proof.
  intros H. rewrite onData_fold. pose proof (split_blank NEWLINE data H) as F.
  revert F. generalize (split NEWLINE data) as l. intros l.
  induction l as [|cmd l IH]; intros F; simpl; auto.
  inversion F as [|? ? Fc Fl]; subst.
  rewrite handleCommand_blank by now apply trim_nil. auto.
Qed.

Lemma X18_blank_chunk_witness :
  forallb is_ws [32; 13; 10; 9; 10; 10]%N = true /\
  onData 9 1 [32; 13; 10; 9; 10; 10]%N both_online = both_online.
Proof.
  split; [reflexivity|]. now apply X18_blank_chunk.
Defined.

Lemma trimStart_ws_app (a s : jsstring) :
  forallb is_ws a = true -> trimStart (a ++ s) = trimStart s.
Proof.
  induction a as [|c a IH]; simpl; auto. intros H.
  apply andb_true_iff in H as [H1 H2]. rewrite H1. auto.
Qed.

Lemma trimEnd_app_ws (s b : jsstring) :
  forallb is_ws b = true -> trimEnd (s ++ b) = trimEnd s.
Proof.
  intros H. induction s as [|c s IH]; simpl.
  - now apply trimEnd_nil.
  - now rewrite IH.
Qed.

Lemma trimStart_of_blank (s : jsstring) :
  forallb is_ws s = true -> trimStart s = [].
Proof.
  induction s as [|c s IH]; simpl; auto. intros H.
  apply andb_true_iff in H as [H1 H2]. rewrite H1. auto.
Qed.

Lemma trimStart_app_ws (s b : jsstring) :
  forallb is_ws b = true ->
  trimEnd (trimStart (s ++ b)) = trimEnd (trimStart s).
Proof.
  intros H. induction s as [|c s IH]; simpl.
  - now rewrite (trimStart_of_blank b H).
  - destruct (is_ws c); auto.
    change (c :: s ++ b) with ((c :: s) ++ b). now apply trimEnd_app_ws.
Qed.

(** [trim] forgets white space around a string. *)
Lemma trim_around (a s b : jsstring) :
  forallb is_ws a = true -> forallb is_ws b = true ->
  trim (a ++ s ++ b) = trim s.
Proof.
  intros A B. unfold trim. rewrite trimStart_ws_app by assumption.
  now apply trimStart_app_ws.
Qed.

(** X19.  [handleCommand] reads a line only through its trimmed form, so
    white space before and after a line, such as the carriage return of a
    line that ends in CR LF, changes nothing of what the command does. *)
Theorem X19_surrounding_white_space
        (now : Z) (sock : Socket) (a data b : jsstring) (w : World) :
  forallb is_ws a = true ->
  forallb is_ws b = true ->
  handleCommand now sock (a ++ data ++ b) w = handleCommand now sock data w.
Proof.
  intros A B. unfold handleCommand. now rewrite (trim_around a data b A B).
Qed.

Lemma X19_surrounding_white_space_witness :
  forallb is_ws [9; 32]%N = true /\
  forallb is_ws [13]%N = true /\
  handleCommand 9 2 ([9; 32]%N ++ lit "WHO" ++ [13]%N) both_online
  = handleCommand 9 2 (lit "WHO") both_online.
Proof.
  split; [reflexivity|]. split; [reflexivity|].
  now apply X19_surrounding_white_space.
Defined.

(** ** More of the activity stamp *)

Lemma Map_set_twice (n : jsstring) (v1 v2 : userData) (m : list (jsstring * userData)) :
  Map_set n v2 (Map_set n v1 m) = Map_set n v2 m.
Proof.
  induction m as [|[k d] r IH]; simpl.
  - now rewrite streq_refl.
  - destruct (streq k n) eqn:E; simpl; rewrite E; auto. now rewrite IH.
Qed.

(** X20.  [updateActivity] does nothing for a connection without a
    session.  For the connection of the session [n] it stores the time in
    that session and changes nothing else: the other sessions, the names and
    their order, the sockets, the flags and the trace stay.  Two stamps in a
    row leave what the second alone would leave. *)
Theorem X20_updateActivity (t1 t2 : Z) (sock : Socket) (w : World) :
  reachable w ->
  (getUsernameBySocket sock w = None -> updateActivity t2 sock w = w) /\
  (forall n, getUsernameBySocket sock w = Some n ->
     Map_get n (users (updateActivity t2 sock w)) = Some (mkUser sock t2 false) /\
     (forall k, k <> n ->
        Map_get k (users (updateActivity t2 sock w)) = Map_get k (users w))) /\
  keys (users (updateActivity t2 sock w)) = keys (users w) /\
  sockets (users (updateActivity t2 sock w)) = sockets (users w) /\
  destroyed (updateActivity t2 sock w) = destroyed w /\
  trace (updateActivity t2 sock w) = trace w /\
  updateActivity t2 sock (updateActivity t1 sock w) = updateActivity t2 sock w.
Proof.
  intros R. apply reachable_Inv in R.
  destruct (updateActivity_frame t2 sock w R) as [_ [K [S [D [T _]]]]].
  split; [apply updateActivity_nosession|].
  split; [intros n U; now apply touched_session|].
  split; [exact K|]. split; [exact S|]. split; [exact D|]. split; [exact T|].
  destruct (getUsernameBySocket sock w) as [n|] eqn:U.
  - destruct (updateActivity_frame t1 sock w R) as [I1 [_ [_ [_ [_ G]]]]].
    assert (U1 : getUsernameBySocket sock (updateActivity t1 sock w) = Some n)
      by now rewrite G.
    destruct (updateActivity_session t2 sock n _ I1 U1) as [d1 [G1 ->]].
    destruct (updateActivity_session t2 sock n w R U) as [d [G2 ->]].
    destruct (updateActivity_session t1 sock n w R U) as [d' [G3 E]].
    rewrite G2 in G3. injection G3 as <-. rewrite E in *. simpl in *.
    rewrite (Map_get_set _ _ _ _ _ G2), streq_refl in G1. injection G1 as <-.
    rewrite Map_set_twice. reflexivity.
  - now rewrite !(updateActivity_nosession _ _ _ U).
Qed.

Lemma X20_updateActivity_witness :
  reachable both_online /\
  getUsernameBySocket 2 both_online = Some bob /\
  Map_get bob (users (updateActivity 77 2 both_online)) = Some (mkUser 2 77 false) /\
  updateActivity 77 2 (updateActivity 33 2 both_online) = updateActivity 77 2 both_online.
Proof.
  refine (conj both_online_reachable (conj eq_refl _)).
  destruct (X20_updateActivity 33 77 2 both_online both_online_reachable)
    as [_ [A [_ [_ [_ [_ B]]]]]].
  split; [apply (A bob eq_refl)|exact B].
Defined.

(** ** Closed connections *)

Lemma step_flag (s : Socket) (w w' : World) :
  step w w' -> Inv w -> is_destroyed s w = true -> is_destroyed s w' = true.
Proof.
  intros T I D. destruct T as [now s0 data w L N|s0 w|now w|s0 w|w].
  - unfold is_destroyed. now rewrite handleCommand_destroyed.
  - apply is_destroyed_In. rewrite handleDisconnect_destroyed by assumption.
    now apply flag_kept, is_destroyed_In.
  - destruct (checkIdleUsers_spec now w I) as [_ [_ [F _]]]. now rewrite F, D.
  - apply is_destroyed_In. simpl. now apply flag_kept, is_destroyed_In.
  - apply is_destroyed_In. unfold shutdown. simpl.
    apply destroy_fold_kept. rewrite broadcast_spec. simpl.
    now apply is_destroyed_In.
Qed.

(** X21.  Through any number of events (lines on sockets that are not
    destroyed, disconnects, sweeps, socket failures, the shutdown) a socket
    that is destroyed stays destroyed, and a connection that is destroyed and
    has no session never gets one again: closed is final. *)
Theorem X21_closed_is_final (sock : Socket) (w w' : World) :
  reachable w ->
  steps w w' ->
  (is_destroyed sock w = true -> is_destroyed sock w' = true) /\
  (closed sock w -> closed sock w').
Proof.
  intros R S. apply reachable_Inv in R. split.
  - intros D. induction S as [|w w' w'' S IH T]; auto.
    apply (step_flag sock w' w'' T); auto. now apply (steps_Inv w w').
  - intros C. now apply (steps_closed sock w w').
Qed.

Lemma X21_closed_is_final_witness :
  reachable (handleDisconnect 1 both_online) /\
  steps (handleDisconnect 1 both_online)
        (handleCommand 9 2 (lit "MSG bye") (handleDisconnect 1 both_online)) /\
  closed 1 (handleCommand 9 2 (lit "MSG bye") (handleDisconnect 1 both_online)).
Proof.
  assert (R : reachable (handleDisconnect 1 both_online)).
  { eapply reach_step; [apply both_online_reachable|apply step_disconnect]. }
  assert (S : steps (handleDisconnect 1 both_online)
                    (handleCommand 9 2 (lit "MSG bye") (handleDisconnect 1 both_online))).
  { eapply steps_step; [apply steps_refl|].
    apply step_command; [reflexivity|vm_compute; discriminate]. }
  refine (conj R (conj S _)).
  destruct (X21_closed_is_final 1 _ _ R S) as [_ H].
  apply H. split; reflexivity.
Defined.
